(** * LSST observation configuration

    A shallow embedding of
    [lenstronomy/SimulationAPI/ObservationConfig/LSST.py]: the six
    module-level band dictionaries, the class [LSST] with its constructor
    and [kwargs_single_band], over an explicit store of Python objects. *)

From Stdlib Require Import ZArith String Ascii List Bool.
From Stdlib Require Import Floats.PrimFloat.
From stdpp Require Import gmap strings pretty.

Local Open Scope Z_scope.
Local Open Scope string_scope.
Set Warnings "-inexact-float".

(** ** Python strings

    A [str] is a sequence of code points.  The embedding covers the code
    points below 256 (one [ascii] each), where [str.isalpha] and
    [str.lower] are given by the tables below. *)

Module PyStr.

Definition between (lo hi n : N) : bool := ((lo <=? n) && (n <=? hi))%N.

(** Code points of general category L* below 256. *)
Definition char_isalpha (c : ascii) : bool :=
  let n := N_of_ascii c in
  between 65 90 n || between 97 122 n
  || (n =? 170)%N || (n =? 181)%N || (n =? 186)%N
  || between 192 214 n || between 216 246 n || between 248 255 n.

(** Code points below 256 that have a lowercase mapping: A-Z and the
    Latin-1 capitals, all 32 below their lowercase form. *)
Definition char_isupper (c : ascii) : bool :=
  let n := N_of_ascii c in
  between 65 90 n || between 192 214 n || between 216 222 n.

Definition char_lower (c : ascii) : ascii :=
  if char_isupper c then ascii_of_N (N_of_ascii c + 32) else c.

Fixpoint all_alpha (s : string) : bool :=
  match s with
  | EmptyString => true
  | String c s' => char_isalpha c && all_alpha s'
  end.

(** [s.isalpha()]: every character is alphabetic and there is at least
    one character. *)
Definition isalpha (s : string) : bool :=
  match s with
  | EmptyString => false
  | _ => all_alpha s
  end.

(** [s.lower()] *)
Fixpoint lower (s : string) : string :=
  match s with
  | EmptyString => EmptyString
  | String c s' => String (char_lower c) (lower s')
  end.

End PyStr.

(** ** Values, objects and the store *)

(** The values the dictionaries of this module hold: [int], [float]
    (IEEE binary64) and [str]; all immutable. *)
Inductive value :=
| VInt (z : Z)
| VFloat (f : float)
| VStr (s : string).

Definition loc := positive.

(** A heap object is a [dict] with string keys, or an instance whose
    [__dict__] binds attribute names to references. *)
Inductive object :=
| ODict (d : gmap string value)
| OInstance (attrs : gmap string loc).

Abbreviation heap := (gmap loc object).

Inductive exn :=
| ValueError (msg : string)
| KeyError (key : string)
| AttributeError (name : string)
| TypeError.

(** The outcome of running a piece of code: it returns, it raises, or it
    leaves what the embedding covers ([Unmodelled]: a dangling reference,
    an object of the wrong kind, float floor division). *)
Inductive outcome (A : Type) :=
| Return (a : A)
| Raise (e : exn)
| Unmodelled.
Arguments Return {A} a.
Arguments Raise {A} e.
Arguments Unmodelled {A}.

Definition M (A : Type) : Type := heap → heap * outcome A.

Definition ret {A} (a : A) : M A := λ h, (h, Return a).
Definition raise {A} (e : exn) : M A := λ h, (h, Raise e).
Definition unmodelled {A} : M A := λ h, (h, Unmodelled).
Definition bind {A B} (m : M A) (k : A → M B) : M B :=
  λ h, match m h with
       | (h', Return a) => k a h'
       | (h', Raise e) => (h', Raise e)
       | (h', Unmodelled) => (h', Unmodelled)
       end.

Notation "x <- c ;; k" := (bind c (λ x, k))
  (at level 100, c at next level, right associativity, only parsing).
Notation "c ;;; k" := (bind c (λ _, k))
  (at level 100, right associativity, only parsing).

(** *** Store primitives *)

(** A new object lives at a location no object occupies. *)
Definition alloc (o : object) : M loc :=
  λ h, let l := fresh (dom h) in (<[l := o]> h, Return l).

Definition read_dict (l : loc) : M (gmap string value) :=
  λ h, match h !! l with
       | Some (ODict d) => (h, Return d)
       | _ => (h, Unmodelled)
       end.

(** [d[k]] *)
Definition getitem (l : loc) (k : string) : M value :=
  d <- read_dict l ;;
  match d !! k with
  | Some v => ret v
  | None => raise (KeyError k)
  end.

(** [d[k] = v]: updates the dictionary at [l] in place. *)
Definition setitem (l : loc) (k : string) (v : value) : M unit :=
  λ h, match h !! l with
       | Some (ODict d) => (<[l := ODict (<[k := v]> d)]> h, Return tt)
       | _ => (h, Unmodelled)
       end.

(** [self.name] *)
Definition getattr (self : loc) (name : string) : M loc :=
  λ h, match h !! self with
       | Some (OInstance attrs) =>
           match attrs !! name with
           | Some l => (h, Return l)
           | None => (h, Raise (AttributeError name))
           end
       | _ => (h, Unmodelled)
       end.

(** [self.name = l] *)
Definition setattr (self : loc) (name : string) (l : loc) : M unit :=
  λ h, match h !! self with
       | Some (OInstance attrs) =>
           (<[self := OInstance (<[name := l]> attrs)]> h, Return tt)
       | _ => (h, Unmodelled)
       end.

(** [copy.deepcopy(d)] of a dictionary: a new dictionary with the same
    keys; the values are immutable, so their copies are the values. *)
Definition deepcopy (l : loc) : M loc :=
  d <- read_dict l ;;
  alloc (ODict d).

(** [c * v // 10] with [c] an [int]: [*] and [//] associate to the left.
    On an [int] it is floor division; a [str] is repeated by [*] and then
    [//] raises [TypeError]. *)
Definition mul_floordiv10 (c : Z) (v : value) : M value :=
  match v with
  | VInt n => ret (VInt (c * n / 10))
  | VStr _ => raise TypeError
  | VFloat _ => unmodelled
  end.

(** ** The module *)

(** *** Module-level band dictionaries *)

Definition u_band_obs_dict : gmap string value :=
  <["exposure_time" := VFloat 15]>
  (<["sky_brightness" := VFloat 22.99]>
  (<["magnitude_zero_point" := VFloat 26.5]>
  (<["num_exposures" := VInt 140]>
  (<["seeing" := VFloat 0.81]>
  (<["psf_type" := VStr "GAUSSIAN"]> ∅))))).

Definition g_band_obs_dict : gmap string value :=
  <["exposure_time" := VFloat 15]>
  (<["sky_brightness" := VFloat 22.26]>
  (<["magnitude_zero_point" := VFloat 28.30]>
  (<["num_exposures" := VInt 200]>
  (<["seeing" := VFloat 0.77]>
  (<["psf_type" := VStr "GAUSSIAN"]> ∅))))).

Definition r_band_obs_dict : gmap string value :=
  <["exposure_time" := VFloat 15]>
  (<["sky_brightness" := VFloat 21.2]>
  (<["magnitude_zero_point" := VFloat 28.13]>
  (<["num_exposures" := VInt 460]>
  (<["seeing" := VFloat 0.73]>
  (<["psf_type" := VStr "GAUSSIAN"]> ∅))))).

Definition i_band_obs_dict : gmap string value :=
  <["exposure_time" := VFloat 15]>
  (<["sky_brightness" := VFloat 20.48]>
  (<["magnitude_zero_point" := VFloat 27.79]>
  (<["num_exposures" := VInt 460]>
  (<["seeing" := VFloat 0.71]>
  (<["psf_type" := VStr "GAUSSIAN"]> ∅))))).

Definition z_band_obs_dict : gmap string value :=
  <["exposure_time" := VFloat 15]>
  (<["sky_brightness" := VFloat 19.6]>
  (<["magnitude_zero_point" := VFloat 27.40]>
  (<["num_exposures" := VInt 400]>
  (<["seeing" := VFloat 0.69]>
  (<["psf_type" := VStr "GAUSSIAN"]> ∅))))).

Definition y_band_obs_dict : gmap string value :=
  <["exposure_time" := VFloat 15]>
  (<["sky_brightness" := VFloat 18.61]>
  (<["magnitude_zero_point" := VFloat 26.58]>
  (<["num_exposures" := VInt 400]>
  (<["seeing" := VFloat 0.68]>
  (<["psf_type" := VStr "GAUSSIAN"]> ∅))))).

(** The module's global names are bound, in the order of their
    assignments, to the first six locations. *)
Definition u_band_obs : loc := 1%positive.
Definition g_band_obs : loc := 2%positive.
Definition r_band_obs : loc := 3%positive.
Definition i_band_obs : loc := 4%positive.
Definition z_band_obs : loc := 5%positive.
Definition y_band_obs : loc := 6%positive.

(** The store once the module body has run. *)
Definition module_heap : heap :=
  <[y_band_obs := ODict y_band_obs_dict]>
  (<[z_band_obs := ODict z_band_obs_dict]>
  (<[i_band_obs := ODict i_band_obs_dict]>
  (<[r_band_obs := ODict r_band_obs_dict]>
  (<[g_band_obs := ODict g_band_obs_dict]>
  (<[u_band_obs := ODict u_band_obs_dict]> ∅))))).

(** *** The three [ValueError]s of [__init__], by raise site *)

Definition InvalidBand (band : string) : exn :=
  ValueError ("band " ++ band
              ++ " not supported! Choose 'u', 'g', 'r', 'i', 'z' or 'y'.").

Definition UnsupportedPSF (psf_type : string) : exn :=
  ValueError ("psf_type " ++ psf_type ++ " not supported!").

Definition InvalidCoaddYears (coadd_years : Z) : exn :=
  ValueError (" " ++ pretty coadd_years
              ++ " coadd_years not supported! Choose an integer between 1 and 10.").

(** *** class LSST *)

Definition camera_dict : gmap string value :=
  <["read_noise" := VInt 10]>
  (<["pixel_scale" := VFloat 0.2]>
  (<["ccd_gain" := VFloat 2.3]> ∅)).

(** Default arguments of [__init__]. *)
Definition default_band : string := "g".
Definition default_psf_type : string := "GAUSSIAN".
Definition default_coadd_years : Z := 10.

(** [self.obs = copy.deepcopy(template)] *)
Definition set_obs (self template : loc) : M unit :=
  l <- deepcopy template ;;
  setattr self "obs" l.

Definition LSST_init (self : loc) (band psf_type : string) (coadd_years : Z)
  : M unit :=
  let band := if PyStr.isalpha band then PyStr.lower band else band in
  (if String.eqb band "g" then set_obs self g_band_obs
   else if String.eqb band "r" then set_obs self r_band_obs
   else if String.eqb band "i" then set_obs self i_band_obs
   else if String.eqb band "u" then set_obs self u_band_obs
   else if String.eqb band "z" then set_obs self z_band_obs
   else if String.eqb band "y" then set_obs self y_band_obs
   else raise (InvalidBand band)) ;;;
  (if negb (String.eqb psf_type "GAUSSIAN")
   then raise (UnsupportedPSF psf_type)
   else ret tt) ;;;
  (if (coadd_years >? 10)%Z || (coadd_years <? 1)%Z
   then raise (InvalidCoaddYears coadd_years)
   else if negb (coadd_years =? 10)%Z then
     o <- getattr self "obs" ;;
     n <- getitem o "num_exposures" ;;
     v <- mul_floordiv10 coadd_years n ;;
     o' <- getattr self "obs" ;;
     setitem o' "num_exposures" v
   else ret tt) ;;;
  c <- alloc (ODict camera_dict) ;;
  setattr self "camera" c.

(** The call [LSST(band, psf_type, coadd_years)]: a new instance without
    attributes is initialised by [__init__]; the caller receives the
    reference only when [__init__] returns. *)
Definition LSST_new (band psf_type : string) (coadd_years : Z) : M loc :=
  self <- alloc (OInstance ∅) ;;
  LSST_init self band psf_type coadd_years ;;;
  ret self.

(** Modelled from the spec: [lenstronomy.Util.util.merge_dicts], which is
    not among the sources.  It returns a new mapping holding the union of
    the keys of its two arguments, the second argument's values taking
    precedence on a shared key. *)
Definition merge_dicts (a b : loc) : M loc :=
  da <- read_dict a ;;
  db <- read_dict b ;;
  alloc (ODict (db ∪ da)).

Definition kwargs_single_band (self : loc) : M loc :=
  camera <- getattr self "camera" ;;
  obs <- getattr self "obs" ;;
  merge_dicts camera obs.

(** * Vocabulary of the analysis *)

(** The band after the first statement of [__init__]. *)
Definition norm_band (band : string) : string :=
  if PyStr.isalpha band then PyStr.lower band else band.

(** The names the [if]/[elif] chain compares with, in its order, each
    with the global it copies and that global's literal. *)
Definition band_table : list (string * loc * gmap string value) :=
  [ ("g", g_band_obs, g_band_obs_dict);
    ("r", r_band_obs, r_band_obs_dict);
    ("i", i_band_obs, i_band_obs_dict);
    ("u", u_band_obs, u_band_obs_dict);
    ("z", z_band_obs, z_band_obs_dict);
    ("y", y_band_obs, y_band_obs_dict) ].

Fixpoint assoc_band (name : string)
    (tbl : list (string * loc * gmap string value)) : option loc :=
  match tbl with
  | [] => None
  | (n, tl, _) :: tbl' => if String.eqb name n then Some tl else assoc_band name tbl'
  end.

Definition select_band (name : string) : option loc :=
  assoc_band name band_table.

(** The statements of [__init__] after the band chain took the branch
    that copies [tl]. *)
Definition init_from (self tl : loc) (psf_type : string) (coadd_years : Z)
  : M unit :=
  set_obs self tl ;;;
  (if negb (String.eqb psf_type "GAUSSIAN")
   then raise (UnsupportedPSF psf_type)
   else ret tt) ;;;
  (if (coadd_years >? 10)%Z || (coadd_years <? 1)%Z
   then raise (InvalidCoaddYears coadd_years)
   else if negb (coadd_years =? 10)%Z then
     o <- getattr self "obs" ;;
     n <- getitem o "num_exposures" ;;
     v <- mul_floordiv10 coadd_years n ;;
     o' <- getattr self "obs" ;;
     setitem o' "num_exposures" v
   else ret tt) ;;;
  c <- alloc (ODict camera_dict) ;;
  setattr self "camera" c.

(** A heap in which the module's globals still hold their literals. *)
Definition templates_intact (h : heap) : Prop :=
  Forall (λ e, h !! e.1.2 = Some (ODict e.2)) band_table.

(** The [int] stored under [num_exposures], if there is one. *)
Definition num_exposures (d : gmap string value) : option Z :=
  match d !! "num_exposures" with
  | Some (VInt n) => Some n
  | _ => None
  end.

(** [d] after the coadd statement of [__init__]. *)
Definition rescaled (coadd_years : Z) (n : Z) (d : gmap string value)
  : gmap string value :=
  if (coadd_years =? 10)%Z then d
  else <["num_exposures" := VInt (coadd_years * n / 10)]> d.

(** Three distinct locations that hold no object in [h]. *)
Definition fresh3 (h : heap) (a b c : loc) : Prop :=
  h !! a = None ∧ h !! b = None ∧ h !! c = None ∧ a ≠ b ∧ a ≠ c ∧ b ≠ c.

(** [h] extended by an instance at [self] whose attributes [obs] and
    [camera] refer to the dictionaries [d_obs] at [lo] and [camera_dict]
    at [lc]. *)
Definition instance_heap (h : heap) (self lo lc : loc)
    (d_obs : gmap string value) : heap :=
  <[self := OInstance (<["camera" := lc]> (<["obs" := lo]> ∅))]>
  (<[lc := ODict camera_dict]>
  (<[lo := ODict d_obs]> h)).

(** [h] when [__init__] raises after the band chain: the abandoned
    instance at [self] and its copy [lo] of the band dictionary. *)
Definition abandoned_heap (h : heap) (self lo : loc)
    (d_obs : gmap string value) : heap :=
  <[self := OInstance (<["obs" := lo]> ∅)]> (<[lo := ODict d_obs]> h).

(** The locations [LSST_new] gives the instance and its copy of the band
    dictionary. *)
Definition new_self (h : heap) : loc := fresh (dom h).

Definition new_obs (h : heap) : loc :=
  fresh (dom (<[new_self h := OInstance ∅]> h)).

(** The uppercase form of a string over a-z. *)
Definition char_upper (c : ascii) : ascii :=
  if PyStr.between 97 122 (N_of_ascii c)
  then ascii_of_N (N_of_ascii c - 32) else c.

Fixpoint uppercase (s : string) : string :=
  match s with
  | EmptyString => EmptyString
  | String c s' => String (char_upper c) (uppercase s')
  end.

(** The band arguments [__init__] accepts. *)
Definition supported_bands : list string :=
  ["u"; "g"; "r"; "i"; "z"; "y"; "U"; "G"; "R"; "I"; "Z"; "Y"].

Definition band_letters : list ascii :=
  ["g"; "r"; "i"; "u"; "z"; "y"]%char.

(** A store in which the band globals are intact yields one of four
    outcomes, decided by the arguments alone. *)
Inductive construction (h : heap) (band psf_type : string) (coadd_years : Z)
  : heap → outcome loc → Prop :=
| C_invalid_band :
    ¬ In band supported_bands →
    construction h band psf_type coadd_years
      (<[fresh (dom h) := OInstance ∅]> h) (Raise (InvalidBand (norm_band band)))
| C_unsupported_psf name tl lit self lo :
    In (name, tl, lit) band_table → band = name ∨ band = uppercase name →
    psf_type ≠ "GAUSSIAN" →
    h !! self = None → h !! lo = None → self ≠ lo →
    construction h band psf_type coadd_years
      (abandoned_heap h self lo lit) (Raise (UnsupportedPSF psf_type))
| C_invalid_coadd_years name tl lit self lo :
    In (name, tl, lit) band_table → band = name ∨ band = uppercase name →
    psf_type = "GAUSSIAN" →
    (coadd_years < 1 ∨ 10 < coadd_years)%Z →
    h !! self = None → h !! lo = None → self ≠ lo →
    construction h band psf_type coadd_years
      (abandoned_heap h self lo lit) (Raise (InvalidCoaddYears coadd_years))
| C_success name tl lit n self lo lc :
    In (name, tl, lit) band_table → band = name ∨ band = uppercase name →
    psf_type = "GAUSSIAN" →
    (1 <= coadd_years <= 10)%Z →
    lit !! "num_exposures" = Some (VInt n) →
    fresh3 h self lo lc →
    construction h band psf_type coadd_years
      (instance_heap h self lo lc (rescaled coadd_years n lit)) (Return self).

(** The contents of [self.obs] and [self.camera]. *)
Definition instance_state (h : heap) (self : loc)
  : option (gmap string value * gmap string value) :=
  match h !! self with
  | Some (OInstance attrs) =>
      match attrs !! "obs", attrs !! "camera" with
      | Some lo, Some lc =>
          match h !! lo, h !! lc with
          | Some (ODict d_obs), Some (ODict d_cam) => Some (d_obs, d_cam)
          | _, _ => None
          end
      | _, _ => None
      end
  | _ => None
  end.

(** The objects an instance is made of: the instance itself and the
    dictionaries its attributes refer to. *)
Definition instance_cells (h : heap) (self : loc) : list loc :=
  match h !! self with
  | Some (OInstance attrs) =>
      self :: option_list (attrs !! "obs") ++ option_list (attrs !! "camera")
  | _ => []
  end.

(** A caller that makes one call of [LSST] after the other, whatever
    each call's outcome. *)
Fixpoint constructions (calls : list (string * string * Z)) (h : heap) : heap :=
  match calls with
  | [] => h
  | (band, psf_type, coadd_years) :: calls' =>
      constructions calls' (LSST_new band psf_type coadd_years h).1
  end.

(** * Analysis *)

(** ** The band selection of [__init__] *)

Lemma LSST_init_unfold self band psf_type coadd_years :
  LSST_init self band psf_type coadd_years =
  match select_band (norm_band band) with
  | Some tl => init_from self tl psf_type coadd_years
  | None => raise (InvalidBand (norm_band band))
  end.
Proof.
  unfold LSST_init, select_band, band_table, assoc_band.
  fold (norm_band band).
  repeat (destruct (String.eqb (norm_band band) _); [reflexivity|]).
  reflexivity.
Qed.

Lemma fresh_lookup (h : heap) : h !! fresh (dom h) = None.
Proof. apply not_elem_of_dom, is_fresh. Qed.

Lemma bind_return {A B} (m : M A) (k : A → M B) h h' a :
  m h = (h', Return a) → bind m k h = k a h'.
Proof. intros E. unfold bind. rewrite E. reflexivity. Qed.

Lemma bind_raise {A B} (m : M A) (k : A → M B) h h' e :
  m h = (h', Raise e) → bind m k h = (h', Raise e).
Proof. intros E. unfold bind. rewrite E. reflexivity. Qed.

Lemma bind_ret {A B} (a : A) (k : A → M B) h : bind (ret a) k h = k a h.
Proof. reflexivity. Qed.

Lemma alloc_run o (h : heap) :
  alloc o h = (<[fresh (dom h) := o]> h, Return (fresh (dom h))).
Proof. reflexivity. Qed.

Lemma getattr_run (h : heap) self attrs name l :
  h !! self = Some (OInstance attrs) → attrs !! name = Some l →
  getattr self name h = (h, Return l).
Proof. intros Hs Ha. unfold getattr. rewrite Hs, Ha. reflexivity. Qed.

Lemma read_dict_run (h : heap) l d :
  h !! l = Some (ODict d) → read_dict l h = (h, Return d).
Proof. intros Hl. unfold read_dict. rewrite Hl. reflexivity. Qed.

Section Construction.
Variables (h : heap) (band psf_type : string) (coadd_years : Z).

Local Abbreviation self := (new_self h).
Local Abbreviation h1 := (<[new_self h := OInstance ∅]> h).
Local Abbreviation lo := (new_obs h).

Lemma LSST_new_invalid_band :
  select_band (norm_band band) = None →
  LSST_new band psf_type coadd_years h
  = (<[fresh (dom h) := OInstance ∅]> h, Raise (InvalidBand (norm_band band))).
Proof.
  intros Hsel. unfold LSST_new.
  rewrite (bind_return _ _ _ _ _ (alloc_run _ _)).
  rewrite LSST_init_unfold, Hsel. reflexivity.
Qed.

Variables (tl : loc) (d : gmap string value).
Hypothesis Hsel : select_band (norm_band band) = Some tl.
Hypothesis Htl : h !! tl = Some (ODict d).

Lemma self_lo_fresh :
  h !! self = None ∧ h !! lo = None ∧ self ≠ lo ∧ tl ≠ self ∧ tl ≠ lo.
Proof.
  assert (h !! self = None) as Hs by apply fresh_lookup.
  assert (h1 !! lo = None) as Hl by apply fresh_lookup.
  apply lookup_insert_None in Hl as [Hl Hne].
  repeat split; auto; intros E; rewrite E in Htl; congruence.
Qed.

(** The store after [self.obs = copy.deepcopy(tl)]. *)
Lemma set_obs_run :
  set_obs self tl h1 = (abandoned_heap h self lo d, Return tt).
Proof.
  destruct self_lo_fresh as (Hs & Hl & Hne & Ht1 & Ht2).
  assert (read_dict tl h1 = (h1, Return d)) as Hread.
  { apply read_dict_run. rewrite lookup_insert_ne by congruence. exact Htl. }
  assert (deepcopy tl h1 = (<[lo := ODict d]> h1, Return lo)) as Hcopy.
  { unfold deepcopy. rewrite (bind_return _ _ _ _ _ Hread). reflexivity. }
  unfold set_obs. rewrite (bind_return _ _ _ _ _ Hcopy). unfold setattr.
  rewrite (lookup_insert_ne h1 lo self) by congruence.
  rewrite lookup_insert_eq.
  unfold abandoned_heap. f_equal.
  rewrite (insert_insert_ne _ lo self) by congruence.
  rewrite insert_insert_eq. reflexivity.
Qed.

Lemma LSST_new_unsupported_psf :
  psf_type ≠ "GAUSSIAN" →
  LSST_new band psf_type coadd_years h
  = (abandoned_heap h self lo d, Raise (UnsupportedPSF psf_type)).
Proof.
  intros Hpsf. unfold LSST_new.
  rewrite (bind_return _ _ _ _ _ (alloc_run _ _)). fold self.
  rewrite LSST_init_unfold, Hsel. unfold init_from.
  apply bind_raise. rewrite (bind_return _ _ _ _ _ set_obs_run).
  apply String.eqb_neq in Hpsf. rewrite Hpsf. reflexivity.
Qed.

Lemma LSST_new_invalid_coadd_years :
  psf_type = "GAUSSIAN" →
  (coadd_years < 1 ∨ 10 < coadd_years)%Z →
  LSST_new band psf_type coadd_years h
  = (abandoned_heap h self lo d, Raise (InvalidCoaddYears coadd_years)).
Proof.
  intros -> Hc. unfold LSST_new.
  rewrite (bind_return _ _ _ _ _ (alloc_run _ _)). fold self.
  rewrite LSST_init_unfold, Hsel. unfold init_from.
  apply bind_raise. rewrite (bind_return _ _ _ _ _ set_obs_run).
  rewrite String.eqb_refl. cbn [negb]. rewrite bind_ret.
  replace ((coadd_years >? 10)%Z || (coadd_years <? 1)%Z) with true
    by (symmetry; apply orb_true_iff; lia).
  reflexivity.
Qed.

Lemma abandoned_self :
  abandoned_heap h self lo d !! self = Some (OInstance (<["obs" := lo]> ∅)).
Proof. unfold abandoned_heap. apply lookup_insert_eq. Qed.

Lemma abandoned_lo : abandoned_heap h self lo d !! lo = Some (ODict d).
Proof.
  destruct self_lo_fresh as (_ & _ & Hne & _).
  unfold abandoned_heap. rewrite lookup_insert_ne by congruence.
  apply lookup_insert_eq.
Qed.

(** The [elif] branch: [self.obs['num_exposures']] is rescaled in place. *)
Lemma rescale_run n :
  d !! "num_exposures" = Some (VInt n) →
  (o <- getattr self "obs" ;;
   n <- getitem o "num_exposures" ;;
   v <- mul_floordiv10 coadd_years n ;;
   o' <- getattr self "obs" ;;
   setitem o' "num_exposures" v) (abandoned_heap h self lo d)
  = (abandoned_heap h self lo
       (<["num_exposures" := VInt (coadd_years * n / 10)]> d), Return tt).
Proof.
  intros Hn. destruct self_lo_fresh as (_ & _ & Hne & _).
  unfold bind, getattr, getitem, bind, read_dict, setitem.
  rewrite abandoned_self, lookup_insert_eq, abandoned_lo, Hn.
  cbv beta iota delta [ret mul_floordiv10].
  rewrite abandoned_self, lookup_insert_eq, abandoned_lo.
  f_equal. unfold abandoned_heap.
  rewrite (insert_insert_ne _ lo self) by congruence.
  rewrite insert_insert_eq. reflexivity.
Qed.

(** The last statement: [self.camera] is bound to a new dictionary. *)
Lemma camera_run d' :
  let h3 := abandoned_heap h self lo d' in
  (c <- alloc (ODict camera_dict) ;; setattr self "camera" c) h3
  = (instance_heap h self lo (fresh (dom h3)) d', Return tt).
Proof.
  intros h3. unfold bind, alloc, setattr.
  assert (h3 !! fresh (dom h3) = None) as Hc by apply fresh_lookup.
  assert (h3 !! self = Some (OInstance (<["obs" := lo]> ∅))) as Hself
    by apply lookup_insert_eq.
  rewrite lookup_insert_ne by (intros E; rewrite E in Hc; congruence).
  rewrite Hself. f_equal.
  unfold instance_heap, h3, abandoned_heap.
  rewrite (insert_insert_ne _ (fresh _) self)
    by (intros E; fold (abandoned_heap h self lo d') in E; fold h3 in E;
        rewrite E in Hc; congruence).
  rewrite insert_insert_eq. reflexivity.
Qed.

Lemma camera_fresh d' :
  fresh3 h self lo (fresh (dom (abandoned_heap h self lo d'))).
Proof.
  destruct self_lo_fresh as (Hs & Hl & Hne & _).
  pose proof (fresh_lookup (abandoned_heap h self lo d')) as Hc.
  revert Hc. generalize (fresh (dom (abandoned_heap h self lo d'))).
  intros lc Hc. unfold abandoned_heap in Hc.
  apply lookup_insert_None in Hc as [Hc Hne1].
  apply lookup_insert_None in Hc as [Hc Hne2].
  unfold fresh3. repeat split; auto.
Qed.

Lemma LSST_new_success n :
  psf_type = "GAUSSIAN" →
  (1 <= coadd_years <= 10)%Z →
  d !! "num_exposures" = Some (VInt n) →
  ∃ lc, fresh3 h self lo lc ∧
    LSST_new band psf_type coadd_years h
    = (instance_heap h self lo lc (rescaled coadd_years n d), Return self).
Proof.
  intros -> Hc Hn.
  exists (fresh (dom (abandoned_heap h self lo (rescaled coadd_years n d)))).
  split; [apply camera_fresh|].
  unfold LSST_new.
  rewrite (bind_return _ _ _ _ _ (alloc_run _ _)). fold self.
  rewrite LSST_init_unfold, Hsel. unfold init_from.
  erewrite bind_return; [reflexivity|].
  rewrite (bind_return _ _ _ _ _ set_obs_run).
  rewrite String.eqb_refl. cbn [negb]. rewrite bind_ret.
  replace ((coadd_years >? 10)%Z || (coadd_years <? 1)%Z) with false
    by (symmetry; apply orb_false_iff; lia).
  unfold rescaled. destruct (coadd_years =? 10)%Z eqn:E10; cbn [negb].
  - rewrite bind_ret. apply camera_run.
  - rewrite (bind_return _ _ _ _ _ (rescale_run n Hn)). apply camera_run.
Qed.

End Construction.

(** ** Which strings select which band *)

Lemma char_lower_band_letter (c x : ascii) :
  In x band_letters → PyStr.char_lower c = x → c = x ∨ c = char_upper x.
Proof.
  intros Hx.
  assert (∀ x', In x' band_letters →
            if Ascii.eqb (PyStr.char_lower c) x'
            then orb (Ascii.eqb c x') (Ascii.eqb c (char_upper x')) = true
            else True) as Hall.
  { intros x' Hx'. simpl in Hx'.
    destruct c as [[] [] [] [] [] [] [] []];
      repeat (destruct Hx' as [<-|Hx']; [vm_compute; exact I || reflexivity|]);
      destruct Hx'. }
  intros E. specialize (Hall x Hx). rewrite <- E, Ascii.eqb_refl in Hall.
  rewrite E in Hall.
  apply orb_true_iff in Hall as [H|H]; apply Ascii.eqb_eq in H; auto.
Qed.

Lemma lower_singleton_inv (s : string) (x : ascii) :
  PyStr.lower s = String x EmptyString →
  ∃ c, s = String c EmptyString ∧ PyStr.char_lower c = x.
Proof.
  destruct s as [|c [|c' s']]; simpl; intros E; try discriminate.
  injection E as E. eauto.
Qed.

Lemma norm_band_letter (band : string) (x : ascii) :
  In x band_letters →
  norm_band band = String x EmptyString →
  band = String x EmptyString ∨ band = uppercase (String x EmptyString).
Proof.
  intros Hx. unfold norm_band.
  destruct (PyStr.isalpha band); [|auto].
  intros E. apply lower_singleton_inv in E as (c & -> & E).
  apply (char_lower_band_letter c x Hx) in E as [->| ->]; auto.
Qed.

Lemma select_band_Some (band : string) (tl : loc) :
  select_band (norm_band band) = Some tl →
  ∃ name lit, In (name, tl, lit) band_table
              ∧ (band = name ∨ band = uppercase name).
Proof.
  unfold select_band, band_table, assoc_band.
  repeat (destruct (String.eqb (norm_band band) _) eqn:E;
    [ apply String.eqb_eq in E; intros [= <-];
      apply norm_band_letter in E; [|simpl; tauto];
      do 2 eexists; split; [|exact E]; simpl; tauto
    | clear E ]).
  discriminate.
Qed.

Lemma select_band_supported (band name : string) tl lit :
  In (name, tl, lit) band_table →
  band = name ∨ band = uppercase name →
  select_band (norm_band band) = Some tl.
Proof.
  intros Hin Hb. simpl in Hin.
  repeat (destruct Hin as [[= <- <- <-]|Hin];
          [destruct Hb as [->| ->]; reflexivity|]).
  destruct Hin.
Qed.

Lemma supported_bands_table (band : string) :
  In band supported_bands ↔
  ∃ name tl lit, In (name, tl, lit) band_table
                 ∧ (band = name ∨ band = uppercase name).
Proof.
  split.
  - intros Hin.
    assert (is_Some (select_band (norm_band band))) as [tl E].
    { simpl in Hin.
      repeat (destruct Hin as [<-|Hin]; [eexists; reflexivity|]).
      destruct Hin. }
    apply select_band_Some in E as (name & lit & Hin' & Hb). eauto.
  - intros (name & tl & lit & Hin & Hb). simpl in Hin.
    repeat (destruct Hin as [[= <- <- <-]|Hin];
            [destruct Hb as [->| ->]; simpl; tauto|]).
    destruct Hin.
Qed.

Lemma select_band_None (band : string) :
  ¬ In band supported_bands → select_band (norm_band band) = None.
Proof.
  intros Hno. destruct (select_band (norm_band band)) as [tl|] eqn:E; [|done].
  apply select_band_Some in E as (name & lit & Hin & Hb).
  exfalso. apply Hno, supported_bands_table. eauto.
Qed.

(** ** The band dictionaries in the store *)

Lemma templates_intact_lookup h name tl lit :
  templates_intact h → In (name, tl, lit) band_table →
  h !! tl = Some (ODict lit).
Proof.
  intros Hh Hin. unfold templates_intact in Hh.
  rewrite Forall_forall in Hh. apply list_elem_of_In in Hin.
  exact (Hh _ Hin).
Qed.

Lemma templates_intact_module : templates_intact module_heap.
Proof. unfold templates_intact, band_table. repeat constructor. Qed.

Lemma templates_intact_mono (h h' : heap) :
  h ⊆ h' → templates_intact h → templates_intact h'.
Proof.
  intros Hsub Hh. unfold templates_intact in *.
  eapply Forall_impl; [exact Hh|]. intros e He. cbv beta in *.
  exact (lookup_weaken _ _ _ _ He Hsub).
Qed.

Lemma band_table_baseline name tl lit :
  In (name, tl, lit) band_table →
  ∃ n, lit !! "num_exposures" = Some (VInt n) ∧ (0 < n)%Z.
Proof.
  intros Hin. simpl in Hin.
  repeat (destruct Hin as [[= <- <- <-]|Hin];
          [eexists; split; [reflexivity|reflexivity]|]).
  destruct Hin.
Qed.

Lemma band_table_keys name tl lit :
  In (name, tl, lit) band_table →
  dom lit = ({["exposure_time"; "sky_brightness"; "magnitude_zero_point";
               "num_exposures"; "seeing"; "psf_type"]} : gset string).
Proof.
  intros Hin. simpl in Hin.
  repeat (destruct Hin as [[= <- <- <-]|Hin];
          [vm_compute; reflexivity|]).
  destruct Hin.
Qed.

Lemma num_exposures_Some d n :
  num_exposures d = Some n ↔ d !! "num_exposures" = Some (VInt n).
Proof.
  unfold num_exposures. split.
  - destruct (d !! "num_exposures") as [[]|]; intros [= ->]; reflexivity.
  - intros ->. reflexivity.
Qed.

(** ** Frames: what an extension of the store leaves alone *)

Lemma abandoned_heap_extends h self lo d :
  h !! self = None → h !! lo = None → self ≠ lo →
  h ⊆ abandoned_heap h self lo d.
Proof.
  intros Hs Hl Hne. unfold abandoned_heap.
  etrans; [apply (insert_subseteq h lo), Hl|].
  apply insert_subseteq. rewrite lookup_insert_ne by congruence. exact Hs.
Qed.

Lemma instance_heap_extends h self lo lc d :
  fresh3 h self lo lc → h ⊆ instance_heap h self lo lc d.
Proof.
  intros (Hs & Hl & Hc & Hsl & Hsc & Hlc). unfold instance_heap.
  etrans; [apply (insert_subseteq h lo), Hl|].
  etrans; [apply (insert_subseteq _ lc); rewrite lookup_insert_ne by congruence;
           exact Hc|].
  apply insert_subseteq. rewrite !lookup_insert_ne by congruence. exact Hs.
Qed.

Lemma heap_subseteq_refl (g : heap) : g ⊆ g.
Proof. reflexivity. Qed.

Lemma alloc_extends (h : heap) o : h ⊆ <[fresh (dom h) := o]> h.
Proof. apply insert_subseteq, fresh_lookup. Qed.

(** ** Every outcome of a construction *)

Lemma LSST_new_construction h band psf_type coadd_years :
  templates_intact h →
  construction h band psf_type coadd_years
    (LSST_new band psf_type coadd_years h).1
    (LSST_new band psf_type coadd_years h).2.
Proof.
  intros Hh.
  destruct (select_band (norm_band band)) as [tl|] eqn:Hsel.
  - destruct (select_band_Some _ _ Hsel) as (name & lit & Hin & Hb).
    pose proof (templates_intact_lookup _ _ _ _ Hh Hin) as Htl.
    destruct (self_lo_fresh h tl lit Htl) as (Hs & Hl & Hne & _).
    destruct (String.eqb_spec psf_type "GAUSSIAN") as [Hpsf|Hpsf].
    + destruct (Z_lt_dec coadd_years 1) as [Hlo|Hlo];
        [|destruct (Z_lt_dec 10 coadd_years) as [Hhi|Hhi]].
      * rewrite (LSST_new_invalid_coadd_years h band psf_type coadd_years
                   tl lit Hsel Htl Hpsf) by auto.
        eapply C_invalid_coadd_years; eauto.
      * rewrite (LSST_new_invalid_coadd_years h band psf_type coadd_years
                   tl lit Hsel Htl Hpsf) by auto.
        eapply C_invalid_coadd_years; eauto.
      * destruct (band_table_baseline _ _ _ Hin) as (n & Hn & _).
        destruct (LSST_new_success h band psf_type coadd_years tl lit
                    Hsel Htl n Hpsf ltac:(lia) Hn) as (lc & Hf & ->).
        eapply C_success; eauto. lia.
    + rewrite (LSST_new_unsupported_psf h band psf_type coadd_years
                 tl lit Hsel Htl Hpsf).
      eapply C_unsupported_psf; eauto.
  - rewrite (LSST_new_invalid_band h band psf_type coadd_years Hsel).
    apply C_invalid_band. intros Hin.
    apply supported_bands_table in Hin as (name & tl & lit & Hin & Hb).
    rewrite (select_band_supported _ _ _ _ Hin Hb) in Hsel. discriminate.
Qed.

Lemma construction_extends h band psf_type coadd_years h' r :
  construction h band psf_type coadd_years h' r → h ⊆ h'.
Proof.
  destruct 1.
  - apply alloc_extends.
  - apply abandoned_heap_extends; assumption.
  - apply abandoned_heap_extends; assumption.
  - apply instance_heap_extends; assumption.
Qed.

(** ** Instances as a caller sees them *)

Lemma instance_state_mono (h h' : heap) self s :
  h ⊆ h' → instance_state h self = Some s → instance_state h' self = Some s.
Proof.
  intros Hsub. unfold instance_state.
  destruct (h !! self) as [[|attrs]|] eqn:Hs; try discriminate.
  rewrite (lookup_weaken _ _ _ _ Hs Hsub).
  destruct (attrs !! "obs") as [lo|]; try discriminate.
  destruct (attrs !! "camera") as [lc|]; try discriminate.
  destruct (h !! lo) as [[d_obs|]|] eqn:Hlo; try discriminate.
  destruct (h !! lc) as [[d_cam|]|] eqn:Hlc; try discriminate.
  rewrite (lookup_weaken _ _ _ _ Hlo Hsub), (lookup_weaken _ _ _ _ Hlc Hsub).
  trivial.
Qed.

Section NewInstance.
Variables (h : heap) (self lo lc : loc) (d : gmap string value).
Hypothesis Hfresh : fresh3 h self lo lc.

Lemma instance_heap_self :
  instance_heap h self lo lc d !! self
  = Some (OInstance (<["camera" := lc]> (<["obs" := lo]> ∅))).
Proof. apply lookup_insert_eq. Qed.

Lemma instance_heap_lo : instance_heap h self lo lc d !! lo = Some (ODict d).
Proof.
  destruct Hfresh as (_ & _ & _ & Hsl & Hsc & Hlc). unfold instance_heap.
  rewrite !lookup_insert_ne by congruence. apply lookup_insert_eq.
Qed.

Lemma instance_heap_lc :
  instance_heap h self lo lc d !! lc = Some (ODict camera_dict).
Proof.
  destruct Hfresh as (_ & _ & _ & Hsl & Hsc & Hlc). unfold instance_heap.
  rewrite lookup_insert_ne by congruence. apply lookup_insert_eq.
Qed.

Lemma instance_heap_state :
  instance_state (instance_heap h self lo lc d) self = Some (d, camera_dict).
Proof.
  unfold instance_state. rewrite instance_heap_self.
  rewrite lookup_insert_ne by discriminate.
  rewrite !lookup_insert_eq.
  rewrite instance_heap_lo, instance_heap_lc. reflexivity.
Qed.

Lemma instance_heap_cells :
  instance_cells (instance_heap h self lo lc d) self = [self; lo; lc].
Proof.
  unfold instance_cells. rewrite instance_heap_self.
  rewrite lookup_insert_ne by discriminate.
  rewrite !lookup_insert_eq. reflexivity.
Qed.

End NewInstance.

(** The query on an instance whose attributes refer to dictionaries. *)
Lemma kwargs_single_band_run (h : heap) self d_obs d_cam :
  instance_state h self = Some (d_obs, d_cam) →
  kwargs_single_band self h
  = (<[fresh (dom h) := ODict (d_obs ∪ d_cam)]> h, Return (fresh (dom h))).
Proof.
  unfold instance_state.
  destruct (h !! self) as [[|attrs]|] eqn:Hs; try discriminate.
  destruct (attrs !! "obs") as [lo|] eqn:Ho; try discriminate.
  destruct (attrs !! "camera") as [lc|] eqn:Hc; try discriminate.
  destruct (h !! lo) as [[d1|]|] eqn:Hlo; try discriminate;
    destruct (h !! lc) as [[d2|]|] eqn:Hlc; try discriminate.
  intros [= -> ->]. unfold kwargs_single_band, merge_dicts.
  rewrite (bind_return _ _ _ _ _ (getattr_run _ _ _ _ _ Hs Hc)).
  rewrite (bind_return _ _ _ _ _ (getattr_run _ _ _ _ _ Hs Ho)).
  rewrite (bind_return _ _ _ _ _ (read_dict_run _ _ _ Hlc)).
  rewrite (bind_return _ _ _ _ _ (read_dict_run _ _ _ Hlo)).
  reflexivity.
Qed.

(** A successful call, read backwards. *)
Lemma LSST_new_Return h band psf_type coadd_years h' self :
  templates_intact h →
  LSST_new band psf_type coadd_years h = (h', Return self) →
  ∃ name tl lit n lo lc,
    In (name, tl, lit) band_table ∧ (band = name ∨ band = uppercase name)
    ∧ psf_type = "GAUSSIAN" ∧ (1 <= coadd_years <= 10)%Z
    ∧ lit !! "num_exposures" = Some (VInt n)
    ∧ fresh3 h self lo lc
    ∧ h' = instance_heap h self lo lc (rescaled coadd_years n lit).
Proof.
  intros Hh E. pose proof (LSST_new_construction h band psf_type coadd_years Hh) as C.
  rewrite E in C. simpl in C.
  inversion C as [| | |name tl lit n self' lo lc Hin Hb Hp Hc Hn Hf Hh' Hr].
  subst self'. exists name, tl, lit, n, lo, lc. tauto.
Qed.

Lemma rescaled_dom coadd_years n (d : gmap string value) :
  is_Some (d !! "num_exposures") → dom (rescaled coadd_years n d) = dom d.
Proof.
  intros Hk. unfold rescaled. destruct (coadd_years =? 10)%Z; [done|].
  rewrite dom_insert_L. apply elem_of_dom in Hk.
  apply set_eq. intros k. rewrite elem_of_union, elem_of_singleton.
  split; [intros [->|]; assumption | auto].
Qed.

Lemma rescaled_num_exposures coadd_years n (d : gmap string value) :
  d !! "num_exposures" = Some (VInt n) → (1 <= coadd_years <= 10)%Z →
  rescaled coadd_years n d !! "num_exposures" = Some (VInt (n * coadd_years / 10)).
Proof.
  intros Hn Hc. unfold rescaled. destruct (coadd_years =? 10)%Z eqn:E.
  - apply Z.eqb_eq in E. subst. rewrite Z.div_mul by lia. exact Hn.
  - rewrite lookup_insert_eq. do 3 f_equal. lia.
Qed.

(** ** The three errors are told apart by their messages *)

Lemma InvalidBand_not_UnsupportedPSF band psf_type :
  InvalidBand band ≠ UnsupportedPSF psf_type.
Proof. unfold InvalidBand, UnsupportedPSF. simpl. discriminate. Qed.

Lemma InvalidBand_not_InvalidCoaddYears band coadd_years :
  InvalidBand band ≠ InvalidCoaddYears coadd_years.
Proof. unfold InvalidBand, InvalidCoaddYears. simpl. discriminate. Qed.

Lemma UnsupportedPSF_not_InvalidCoaddYears psf_type coadd_years :
  UnsupportedPSF psf_type ≠ InvalidCoaddYears coadd_years.
Proof. unfold UnsupportedPSF, InvalidCoaddYears. simpl. discriminate. Qed.

(** ** Construction with valid arguments *)

Lemma LSST_new_ok h band name tl lit n coadd_years :
  templates_intact h →
  In (name, tl, lit) band_table → band = name ∨ band = uppercase name →
  lit !! "num_exposures" = Some (VInt n) →
  (1 <= coadd_years <= 10)%Z →
  ∃ self lo lc, fresh3 h self lo lc ∧
    LSST_new band "GAUSSIAN" coadd_years h
    = (instance_heap h self lo lc (rescaled coadd_years n lit), Return self).
Proof.
  intros Hh Hin Hb Hn Hc.
  pose proof (select_band_supported _ _ _ _ Hin Hb) as Hsel.
  pose proof (templates_intact_lookup _ _ _ _ Hh Hin) as Htl.
  destruct (LSST_new_success h band "GAUSSIAN" coadd_years tl lit
              Hsel Htl n eq_refl Hc Hn) as (lc & Hf & E).
  eauto.
Qed.

(** * The claims *)

(** C1: for every supported band and every [coadd_years] from 1 to 10,
    the [num_exposures] stored in the constructed instance is
    [floor (baseline * coadd_years / 10)], where [baseline] is the value
    in the band's module-level dictionary; for [coadd_years = 10] it is
    the baseline, and for band ["Z"] with [coadd_years = 1] it is 40. *)
Theorem num_exposures_scaled
    (h : heap) (band name : string) (tl : loc) (lit : gmap string value)
    (baseline coadd_years : Z) :
  templates_intact h →
  In (name, tl, lit) band_table → band = name ∨ band = uppercase name →
  num_exposures lit = Some baseline →
  (1 <= coadd_years <= 10)%Z →
  ∃ h' self d_obs d_cam,
    LSST_new band "GAUSSIAN" coadd_years h = (h', Return self)
    ∧ instance_state h' self = Some (d_obs, d_cam)
    ∧ num_exposures d_obs = Some (baseline * coadd_years / 10)
    ∧ (coadd_years = 10 → num_exposures d_obs = Some baseline)
    ∧ (band = "Z" → coadd_years = 1 → num_exposures d_obs = Some 40).
Proof.
  intros Hh Hin Hb Hbase Hc. apply num_exposures_Some in Hbase.
  destruct (LSST_new_ok h band name tl lit baseline coadd_years
              Hh Hin Hb Hbase Hc) as (self & lo & lc & Hf & E).
  exists (instance_heap h self lo lc (rescaled coadd_years baseline lit)),
    self, (rescaled coadd_years baseline lit), camera_dict.
  pose proof (rescaled_num_exposures coadd_years baseline lit Hbase Hc) as Hr.
  apply num_exposures_Some in Hr.
  split; [exact E|]. split; [apply instance_heap_state, Hf|].
  split; [exact Hr|]. split.
  - intros ->. rewrite Hr. rewrite Z.div_mul by lia. reflexivity.
  - intros -> ->. rewrite Hr. f_equal.
    assert (baseline = 400) as ->; [|reflexivity].
    simpl in Hin.
    repeat (destruct Hin as [[= <- <- <-]|Hin];
      [ destruct Hb as [Hb|Hb]; try discriminate Hb;
        vm_compute in Hbase; congruence |]).
    destruct Hin.
Qed.

Lemma num_exposures_scaled_witness :
  ∃ h' self d_obs d_cam,
    LSST_new "Z" "GAUSSIAN" 1 module_heap = (h', Return self)
    ∧ instance_state h' self = Some (d_obs, d_cam)
    ∧ num_exposures d_obs = Some 40.
Proof.
  destruct (num_exposures_scaled module_heap "Z" "z" z_band_obs
              z_band_obs_dict 400 1 templates_intact_module)
    as (h' & self & d_obs & d_cam & E & Hs & _ & _ & H40).
  - simpl. tauto.
  - right. reflexivity.
  - reflexivity.
  - lia.
  - exists h', self, d_obs, d_cam. auto.
Defined.

(** C2: for every band string among u, g, r, i, z, y and their uppercase
    forms, construction succeeds and the instance holds a copy of the
    dictionary of the correspondingly named global (the argument is
    lowercased when alphabetic); for every other band string construction
    raises the band error. *)
Theorem band_selection :
  (∀ (h : heap) (band : string) (coadd_years : Z),
      templates_intact h → In band supported_bands →
      (1 <= coadd_years <= 10)%Z →
      ∃ name tl lit n h' self,
        In (name, tl, lit) band_table
        ∧ (band = name ∨ band = uppercase name)
        ∧ norm_band band = name
        ∧ h !! tl = Some (ODict lit)
        ∧ lit !! "num_exposures" = Some (VInt n)
        ∧ LSST_new band "GAUSSIAN" coadd_years h = (h', Return self)
        ∧ instance_state h' self
          = Some (rescaled coadd_years n lit, camera_dict)
        ∧ rescaled 10 n lit = lit)
  ∧ (∀ (h : heap) (band psf_type : string) (coadd_years : Z),
      ¬ In band supported_bands →
      (LSST_new band psf_type coadd_years h).2
      = Raise (InvalidBand (norm_band band))).
Proof.
  split.
  - intros h band c Hh Hin Hc.
    apply supported_bands_table in Hin as (name & tl & lit & Hin & Hb).
    destruct (band_table_baseline _ _ _ Hin) as (n & Hn & _).
    destruct (LSST_new_ok h band name tl lit n c Hh Hin Hb Hn Hc)
      as (self & lo & lc & Hf & E).
    exists name, tl, lit, n, (instance_heap h self lo lc (rescaled c n lit)), self.
    repeat split; auto.
    + simpl in Hin.
      repeat (destruct Hin as [[= <- <- <-]|Hin];
              [destruct Hb as [->| ->]; reflexivity|]).
      destruct Hin.
    + eapply templates_intact_lookup; eauto.
    + apply instance_heap_state, Hf.
  - intros h band psf c Hno.
    rewrite (LSST_new_invalid_band h band psf c (select_band_None band Hno)).
    reflexivity.
Qed.

Lemma band_selection_witness :
  (∃ h' self,
      LSST_new "U" "GAUSSIAN" 10 module_heap = (h', Return self)
      ∧ instance_state h' self = Some (u_band_obs_dict, camera_dict))
  ∧ (LSST_new "x" "GAUSSIAN" 10 module_heap).2 = Raise (InvalidBand "x").
Proof.
  destruct band_selection as [Hok Hbad]. split.
  - destruct (Hok module_heap "U" 10 templates_intact_module)
      as (name & tl & lit & n & h' & self & Hin & Hb & Hnorm & Htl & Hn & E & Hs & H10).
    + simpl. tauto.
    + lia.
    + exists h', self. split; [exact E|]. rewrite Hs.
      rewrite H10. vm_compute in Hnorm. subst name.
      unfold band_table in Hin. cbn [In] in Hin.
      assert (lit = u_band_obs_dict) as -> by intuition congruence.
      reflexivity.
  - apply (Hbad module_heap "x" "GAUSSIAN" 10). simpl.
    intros H. repeat (destruct H as [H|H]; [discriminate H|]). exact H.
Defined.

(** C3: for every [psf_type] other than the exact string ["GAUSSIAN"]
    (so also for ["gaussian"]), construction with a supported band raises
    the PSF error, whatever [coadd_years] is. *)
Theorem unsupported_psf_type
    (h : heap) (band psf_type : string) (coadd_years : Z) :
  templates_intact h → In band supported_bands →
  psf_type ≠ "GAUSSIAN" →
  (LSST_new band psf_type coadd_years h).2 = Raise (UnsupportedPSF psf_type).
Proof.
  intros Hh Hin Hpsf.
  apply supported_bands_table in Hin as (name & tl & lit & Hin & Hb).
  pose proof (select_band_supported _ _ _ _ Hin Hb) as Hsel.
  pose proof (templates_intact_lookup _ _ _ _ Hh Hin) as Htl.
  rewrite (LSST_new_unsupported_psf h band psf_type coadd_years tl lit
             Hsel Htl Hpsf).
  reflexivity.
Qed.

Lemma unsupported_psf_type_witness :
  (LSST_new default_band "gaussian" default_coadd_years module_heap).2
  = Raise (UnsupportedPSF "gaussian").
Proof.
  apply (unsupported_psf_type module_heap default_band "gaussian"
           default_coadd_years templates_intact_module).
  - simpl. tauto.
  - discriminate.
Defined.

(** C4: for every integer [coadd_years] below 1 or above 10, construction
    (with a supported band and the supported PSF) raises the coadd-years
    error.  A call of [LSST] either returns an instance with both
    attributes bound to dictionaries, or raises one of the three errors
    and returns no reference; in both cases every object that existed
    before the call is unchanged. *)
Theorem coadd_years_out_of_range
    (h : heap) (band psf_type : string) (coadd_years : Z) :
  templates_intact h →
  (In band supported_bands → psf_type = "GAUSSIAN" →
   (coadd_years < 1 ∨ 10 < coadd_years)%Z →
   (LSST_new band psf_type coadd_years h).2
   = Raise (InvalidCoaddYears coadd_years))
  ∧ ((∃ self d_obs,
        (LSST_new band psf_type coadd_years h).2 = Return self
        ∧ instance_state (LSST_new band psf_type coadd_years h).1 self
          = Some (d_obs, camera_dict))
     ∨ (∃ e, (LSST_new band psf_type coadd_years h).2 = Raise e
             ∧ (e = InvalidBand (norm_band band)
                ∨ e = UnsupportedPSF psf_type
                ∨ e = InvalidCoaddYears coadd_years)))
  ∧ h ⊆ (LSST_new band psf_type coadd_years h).1.
Proof.
  intros Hh. split; [|split].
  - intros Hin -> Hc.
    apply supported_bands_table in Hin as (name & tl & lit & Hin & Hb).
    pose proof (select_band_supported _ _ _ _ Hin Hb) as Hsel.
    pose proof (templates_intact_lookup _ _ _ _ Hh Hin) as Htl.
    rewrite (LSST_new_invalid_coadd_years h band "GAUSSIAN" coadd_years tl lit
               Hsel Htl eq_refl Hc).
    reflexivity.
  - destruct (LSST_new_construction h band psf_type coadd_years Hh).
    + right. eauto.
    + right. eauto 6.
    + right. eauto 6.
    + left. do 2 eexists. split; [reflexivity|].
      apply instance_heap_state. assumption.
  - eapply construction_extends, LSST_new_construction, Hh.
Qed.

Lemma coadd_years_out_of_range_witness :
  (LSST_new "g" "GAUSSIAN" 11 module_heap).2 = Raise (InvalidCoaddYears 11)
  ∧ (LSST_new "g" "GAUSSIAN" 0 module_heap).2 = Raise (InvalidCoaddYears 0)
  ∧ module_heap ⊆ (LSST_new "g" "GAUSSIAN" 11 module_heap).1.
Proof.
  split; [|split].
  - apply (coadd_years_out_of_range module_heap "g" "GAUSSIAN" 11
             templates_intact_module); [simpl; tauto | reflexivity | lia].
  - apply (coadd_years_out_of_range module_heap "g" "GAUSSIAN" 0
             templates_intact_module); [simpl; tauto | reflexivity | lia].
  - apply (coadd_years_out_of_range module_heap "g" "GAUSSIAN" 11
             templates_intact_module).
Defined.

(** C10: the checks run in the order band, PSF type, coadd years: with an
    unsupported band the band error is raised whatever the other
    arguments are, never the PSF or the coadd-years error; with a
    supported band and an unsupported PSF type the PSF error is raised
    whatever [coadd_years] is, never the coadd-years error. *)
Theorem validation_order
    (h : heap) (band psf_type : string) (coadd_years : Z) :
  templates_intact h →
  (¬ In band supported_bands →
   (LSST_new band psf_type coadd_years h).2
   = Raise (InvalidBand (norm_band band))
   ∧ (∀ p, (LSST_new band psf_type coadd_years h).2
           ≠ Raise (UnsupportedPSF p))
   ∧ (∀ c, (LSST_new band psf_type coadd_years h).2
           ≠ Raise (InvalidCoaddYears c)))
  ∧ (In band supported_bands → psf_type ≠ "GAUSSIAN" →
     (LSST_new band psf_type coadd_years h).2
     = Raise (UnsupportedPSF psf_type)
     ∧ (∀ c, (LSST_new band psf_type coadd_years h).2
             ≠ Raise (InvalidCoaddYears c))).
Proof.
  intros Hh. split.
  - intros Hno.
    rewrite (LSST_new_invalid_band h band psf_type coadd_years
               (select_band_None band Hno)).
    cbn [snd]. split; [reflexivity|]. split.
    + intros p E. apply (InvalidBand_not_UnsupportedPSF (norm_band band) p).
      congruence.
    + intros c E. apply (InvalidBand_not_InvalidCoaddYears (norm_band band) c).
      congruence.
  - intros Hin Hpsf.
    apply supported_bands_table in Hin as (name & tl & lit & Hin & Hb).
    pose proof (select_band_supported _ _ _ _ Hin Hb) as Hsel.
    pose proof (templates_intact_lookup _ _ _ _ Hh Hin) as Htl.
    rewrite (LSST_new_unsupported_psf h band psf_type coadd_years tl lit
               Hsel Htl Hpsf).
    cbn [snd]. split; [reflexivity|].
    intros c E. apply (UnsupportedPSF_not_InvalidCoaddYears psf_type c).
    congruence.
Qed.

Lemma validation_order_witness :
  (LSST_new "x" "gaussian" 11 module_heap).2 = Raise (InvalidBand "x")
  ∧ (LSST_new "g" "gaussian" 11 module_heap).2
    = Raise (UnsupportedPSF "gaussian").
Proof.
  split.
  - apply (validation_order module_heap "x" "gaussian" 11
             templates_intact_module).
    simpl. intros H. repeat (destruct H as [H|H]; [discriminate H|]). exact H.
  - apply (validation_order module_heap "g" "gaussian" 11
             templates_intact_module); [simpl; tauto | discriminate].
Defined.

(** ** The merged mapping *)

Lemma kwargs_single_band_spec (g : heap) self d_obs d_cam :
  instance_state g self = Some (d_obs, d_cam) →
  ∃ l m,
    kwargs_single_band self g = (<[l := ODict m]> g, Return l)
    ∧ g !! l = None
    ∧ m = d_obs ∪ d_cam
    ∧ dom m = dom d_cam ∪ dom d_obs
    ∧ (∀ k v, d_obs !! k = Some v → m !! k = Some v)
    ∧ (∀ k, d_obs !! k = None → m !! k = d_cam !! k).
Proof.
  intros Hs. exists (fresh (dom g)), (d_obs ∪ d_cam).
  split; [apply kwargs_single_band_run, Hs|].
  split; [apply fresh_lookup|]. split; [reflexivity|]. split; [|split].
  - rewrite dom_union_L. apply set_eq. intros k.
    rewrite !elem_of_union. tauto.
  - intros k v Hk. apply lookup_union_Some_l, Hk.
  - intros k Hk. apply lookup_union_r, Hk.
Qed.

Lemma camera_dict_keys :
  dom camera_dict = ({["read_noise"; "pixel_scale"; "ccd_gain"]} : gset string).
Proof. vm_compute. reflexivity. Qed.

Lemma merged_keys (lit : gmap string value) :
  dom lit = ({["exposure_time"; "sky_brightness"; "magnitude_zero_point";
               "num_exposures"; "seeing"; "psf_type"]} : gset string) →
  dom camera_dict ∪ dom lit
  = ({["exposure_time"; "sky_brightness"; "magnitude_zero_point";
       "num_exposures"; "seeing"; "psf_type";
       "read_noise"; "pixel_scale"; "ccd_gain"]} : gset string).
Proof. intros ->. rewrite camera_dict_keys. vm_compute. reflexivity. Qed.

(** C5: on every successfully constructed instance the query takes no
    argument besides the instance and returns a new mapping whose keys
    are exactly the nine names below; in general its keys are the union
    of the keys of the camera dictionary and of the observation
    dictionary, and on a shared key the observation value is the one
    returned. *)
Theorem kwargs_single_band_keys
    (h : heap) (band psf_type : string) (coadd_years : Z)
    (h1 : heap) (self : loc) :
  templates_intact h →
  LSST_new band psf_type coadd_years h = (h1, Return self) →
  (∃ l m,
      kwargs_single_band self h1 = (<[l := ODict m]> h1, Return l)
      ∧ h1 !! l = None
      ∧ dom m
        = ({["exposure_time"; "sky_brightness"; "magnitude_zero_point";
             "num_exposures"; "seeing"; "psf_type";
             "read_noise"; "pixel_scale"; "ccd_gain"]} : gset string))
  ∧ (∀ (g : heap) (d_obs d_cam : gmap string value),
        instance_state g self = Some (d_obs, d_cam) →
        ∃ l m,
          kwargs_single_band self g = (<[l := ODict m]> g, Return l)
          ∧ g !! l = None
          ∧ dom m = dom d_cam ∪ dom d_obs
          ∧ (∀ k v, d_obs !! k = Some v → m !! k = Some v)
          ∧ (∀ k, d_obs !! k = None → m !! k = d_cam !! k)).
Proof.
  intros Hh E. split.
  - destruct (LSST_new_Return _ _ _ _ _ _ Hh E)
      as (name & tl & lit & n & lo & lc & Hin & Hb & Hp & Hc & Hn & Hf & ->).
    pose proof (instance_heap_state h self lo lc
                  (rescaled coadd_years n lit) Hf) as Hs.
    destruct (kwargs_single_band_spec _ _ _ _ Hs)
      as (l & m & Hq & Hl & _ & Hdom & _).
    exists l, m. split; [exact Hq|]. split; [exact Hl|].
    rewrite Hdom, rescaled_dom by eauto.
    apply merged_keys, (band_table_keys _ _ _ Hin).
  - intros g d_obs d_cam Hs.
    destruct (kwargs_single_band_spec _ _ _ _ Hs)
      as (l & m & Hq & Hl & _ & Hdom & Hobs & Hcam).
    exists l, m. auto.
Qed.

Lemma kwargs_single_band_keys_witness :
  ∃ h1 self l m,
    LSST_new "r" "GAUSSIAN" 5 module_heap = (h1, Return self)
    ∧ kwargs_single_band self h1 = (<[l := ODict m]> h1, Return l)
    ∧ dom m
      = ({["exposure_time"; "sky_brightness"; "magnitude_zero_point";
           "num_exposures"; "seeing"; "psf_type";
           "read_noise"; "pixel_scale"; "ccd_gain"]} : gset string).
Proof.
  destruct (LSST_new_ok module_heap "r" "r" r_band_obs r_band_obs_dict 460 5
              templates_intact_module)
    as (self & lo & lc & Hf & E);
    [simpl; tauto | left; reflexivity | reflexivity | lia |].
  destruct (kwargs_single_band_keys module_heap "r" "GAUSSIAN" 5 _ _
              templates_intact_module E) as [(l & m & Hq & _ & Hdom) _].
  eexists _, self, l, m. split; [exact E|]. split; [exact Hq | exact Hdom].
Defined.

(** C6: constructing with band ["u"] and the default PSF type and coadd
    years, then querying, gives a mapping with [num_exposures] 140,
    [exposure_time] 15.0, [psf_type] ["GAUSSIAN"], [read_noise] 10 and
    [pixel_scale] 0.2. *)
Theorem u_band_defaults (h : heap) :
  templates_intact h →
  ∃ h1 self h2 l m,
    LSST_new "u" default_psf_type default_coadd_years h = (h1, Return self)
    ∧ kwargs_single_band self h1 = (h2, Return l)
    ∧ h2 !! l = Some (ODict m)
    ∧ m !! "num_exposures" = Some (VInt 140)
    ∧ m !! "exposure_time" = Some (VFloat 15.0)
    ∧ m !! "psf_type" = Some (VStr "GAUSSIAN")
    ∧ m !! "read_noise" = Some (VInt 10)
    ∧ m !! "pixel_scale" = Some (VFloat 0.2).
Proof.
  intros Hh.
  destruct (LSST_new_ok h "u" "u" u_band_obs u_band_obs_dict 140 10 Hh)
    as (self & lo & lc & Hf & E);
    [simpl; tauto | left; reflexivity | reflexivity | lia |].
  pose proof (instance_heap_state h self lo lc
                (rescaled 10 140 u_band_obs_dict) Hf) as Hs.
  destruct (kwargs_single_band_spec _ _ _ _ Hs)
    as (l & m & Hq & Hl & -> & _).
  do 5 eexists. split; [exact E|]. split; [exact Hq|].
  split; [apply lookup_insert_eq|].
  repeat split; reflexivity.
Qed.

Lemma u_band_defaults_witness :
  ∃ h1 self h2 l m,
    LSST_new "u" "GAUSSIAN" 10 module_heap = (h1, Return self)
    ∧ kwargs_single_band self h1 = (h2, Return l)
    ∧ h2 !! l = Some (ODict m)
    ∧ m !! "num_exposures" = Some (VInt 140).
Proof.
  destruct (u_band_defaults module_heap templates_intact_module)
    as (h1 & self & h2 & l & m & E & Hq & Hl & Hn & _).
  exists h1, self, h2, l, m. auto.
Defined.

(** C9: after every successful construction, whatever the band and
    [coadd_years], the camera dictionary of the instance is
    [read_noise] 10, [pixel_scale] 0.2, [ccd_gain] 2.3, and every query
    made while the instance is unchanged returns these three values. *)
Theorem camera_fixed
    (h : heap) (band psf_type : string) (coadd_years : Z)
    (h1 : heap) (self : loc) :
  templates_intact h →
  LSST_new band psf_type coadd_years h = (h1, Return self) →
  ∃ d_obs,
    instance_state h1 self = Some (d_obs, camera_dict)
    ∧ camera_dict
      = <["read_noise" := VInt 10]>
        (<["pixel_scale" := VFloat 0.2]> (<["ccd_gain" := VFloat 2.3]> ∅))
    ∧ (∀ g : heap, h1 ⊆ g →
         ∃ l m,
           kwargs_single_band self g = (<[l := ODict m]> g, Return l)
           ∧ m !! "read_noise" = Some (VInt 10)
           ∧ m !! "pixel_scale" = Some (VFloat 0.2)
           ∧ m !! "ccd_gain" = Some (VFloat 2.3)).
Proof.
  intros Hh E.
  destruct (LSST_new_Return _ _ _ _ _ _ Hh E)
    as (name & tl & lit & n & lo & lc & Hin & Hb & Hp & Hc & Hn & Hf & ->).
  pose proof (instance_heap_state h self lo lc
                (rescaled coadd_years n lit) Hf) as Hs.
  exists (rescaled coadd_years n lit).
  split; [exact Hs|]. split; [reflexivity|].
  intros g Hg.
  destruct (kwargs_single_band_spec _ _ _ _ (instance_state_mono _ _ _ _ Hg Hs))
    as (l & m & Hq & _ & _ & _ & _ & Hcam).
  exists l, m. split; [exact Hq|].
  assert (∀ k, k ∉ dom lit → rescaled coadd_years n lit !! k = None) as Hnone.
  { intros k Hk. apply not_elem_of_dom.
    rewrite rescaled_dom by eauto. exact Hk. }
  rewrite (band_table_keys _ _ _ Hin) in Hnone.
  assert (∀ k, k ∈ dom camera_dict → rescaled coadd_years n lit !! k = None)
    as Hcamkeys.
  { intros k Hk. apply Hnone. intros Hk'.
    rewrite camera_dict_keys in Hk.
    set_unfold. intuition congruence. }
  repeat split; (rewrite Hcam; [reflexivity|]); apply Hcamkeys;
    rewrite camera_dict_keys; set_unfold; auto.
Qed.

Lemma camera_fixed_witness :
  ∃ h1 self l m,
    LSST_new "y" "GAUSSIAN" 3 module_heap = (h1, Return self)
    ∧ kwargs_single_band self h1 = (<[l := ODict m]> h1, Return l)
    ∧ m !! "read_noise" = Some (VInt 10)
    ∧ m !! "pixel_scale" = Some (VFloat 0.2)
    ∧ m !! "ccd_gain" = Some (VFloat 2.3).
Proof.
  destruct (LSST_new_ok module_heap "y" "y" y_band_obs y_band_obs_dict 400 3
              templates_intact_module)
    as (self & lo & lc & Hf & E);
    [simpl; tauto | left; reflexivity | reflexivity | lia |].
  destruct (camera_fixed module_heap "y" "GAUSSIAN" 3 _ _
              templates_intact_module E) as (d_obs & _ & _ & Hq).
  destruct (Hq _ (heap_subseteq_refl _))
    as (l & m & Hrun & H1 & H2 & H3).
  eexists _, self, l, m. split; [exact E|]. auto.
Defined.

(** ** Writes by a caller *)

Lemma LSST_new_extends h band psf_type coadd_years :
  templates_intact h → h ⊆ (LSST_new band psf_type coadd_years h).1.
Proof.
  intros Hh. eapply construction_extends, LSST_new_construction, Hh.
Qed.

Lemma constructions_extends calls : ∀ h,
  templates_intact h →
  h ⊆ constructions calls h ∧ templates_intact (constructions calls h).
Proof.
  induction calls as [|[[band psf_type] coadd_years] calls IH]; intros h Hh.
  - split; [reflexivity | exact Hh].
  - cbn [constructions].
    pose proof (LSST_new_extends h band psf_type coadd_years Hh) as Hsub.
    destruct (IH _ (templates_intact_mono _ _ Hsub Hh)) as [Hsub' Hh'].
    split; [etrans; eassumption | exact Hh'].
Qed.

Lemma insert_fresh_extends (h g : heap) l o :
  h ⊆ g → h !! l = None → h ⊆ <[l := o]> g.
Proof.
  intros Hsub Hl. apply map_subseteq_spec. intros i x Hi.
  rewrite lookup_insert_ne by (intros ->; congruence).
  exact (lookup_weaken _ _ _ _ Hi Hsub).
Qed.

Lemma setitem_run (g : heap) l d k v :
  g !! l = Some (ODict d) →
  setitem l k v g = (<[l := ODict (<[k := v]> d)]> g, Return tt).
Proof. intros Hl. unfold setitem. rewrite Hl. reflexivity. Qed.

Lemma instance_cells_mono (h g : heap) self :
  h ⊆ g → is_Some (h !! self) → instance_cells g self = instance_cells h self.
Proof.
  intros Hsub [o Ho]. unfold instance_cells.
  rewrite Ho, (lookup_weaken _ _ _ _ Ho Hsub). reflexivity.
Qed.

(** A write outside the cells of a new instance leaves its state alone. *)
Lemma instance_state_insert_outside h self lo lc d l o :
  fresh3 h self lo lc → l ≠ self → l ≠ lo → l ≠ lc →
  instance_state (<[l := o]> (instance_heap h self lo lc d)) self
  = Some (d, camera_dict).
Proof.
  intros Hf Hs Hl Hc. unfold instance_state.
  rewrite (lookup_insert_ne _ l self) by congruence.
  rewrite (instance_heap_self h self lo lc d).
  rewrite lookup_insert_ne by discriminate.
  rewrite !lookup_insert_eq.
  rewrite (lookup_insert_ne _ l lo), (lookup_insert_ne _ l lc) by congruence.
  rewrite (instance_heap_lo _ _ _ _ _ Hf), (instance_heap_lc _ _ _ _ _ Hf).
  reflexivity.
Qed.

(** C7: on every successfully constructed instance, two calls of the
    query return two mappings with the same contents, each at a location
    that held no object before, so different from each other and from
    every object of the instance; the calls change no existing object,
    and whatever a caller then writes into one result leaves the other
    result and the state of the instance as they were. *)
Theorem kwargs_single_band_fresh
    (h : heap) (band psf_type : string) (coadd_years : Z)
    (h1 : heap) (self : loc) :
  templates_intact h →
  LSST_new band psf_type coadd_years h = (h1, Return self) →
  ∃ l1 l2 m s,
    let h2 : heap := <[l1 := ODict m]> h1 in
    let h3 : heap := <[l2 := ODict m]> h2 in
    kwargs_single_band self h1 = (h2, Return l1)
    ∧ kwargs_single_band self h2 = (h3, Return l2)
    ∧ h1 !! l1 = None ∧ h1 !! l2 = None ∧ l1 ≠ l2
    ∧ ¬ In l1 (instance_cells h1 self) ∧ ¬ In l2 (instance_cells h1 self)
    ∧ h1 ⊆ h3
    ∧ instance_state h1 self = Some s
    ∧ instance_state h3 self = Some s
    ∧ (∀ m' : gmap string value,
         (<[l1 := ODict m']> h3) !! l2 = Some (ODict m)
         ∧ h1 ⊆ <[l1 := ODict m']> h3
         ∧ instance_state (<[l1 := ODict m']> h3) self = Some s)
    ∧ (∀ m' : gmap string value,
         (<[l2 := ODict m']> h3) !! l1 = Some (ODict m)
         ∧ h1 ⊆ <[l2 := ODict m']> h3
         ∧ instance_state (<[l2 := ODict m']> h3) self = Some s)
    ∧ (∀ k v, setitem l1 k v h3
              = (<[l1 := ODict (<[k := v]> m)]> h3, Return tt)).
Proof.
  intros Hh E.
  destruct (LSST_new_Return _ _ _ _ _ _ Hh E)
    as (name & tl & lit & n & lo & lc & Hin & Hb & Hp & Hc & Hn & Hf & ->).
  set (h1 := instance_heap h self lo lc (rescaled coadd_years n lit)).
  pose proof (instance_heap_state h self lo lc
                (rescaled coadd_years n lit) Hf) as Hs. fold h1 in Hs.
  pose proof (kwargs_single_band_run h1 self _ _ Hs) as Hq1.
  set (l1 := fresh (dom h1)) in *.
  set (m := rescaled coadd_years n lit ∪ camera_dict) in *.
  assert (h1 !! l1 = None) as Hl1 by apply fresh_lookup.
  assert (h1 ⊆ <[l1 := ODict m]> h1) as Hsub2
    by (apply insert_subseteq, Hl1).
  pose proof (instance_state_mono _ _ _ _ Hsub2 Hs) as Hs2.
  pose proof (kwargs_single_band_run _ self _ _ Hs2) as Hq2.
  fold m in Hq2.
  set (l2 := fresh (dom (<[l1 := ODict m]> h1))) in *.
  assert ((<[l1 := ODict m]> h1) !! l2 = None) as Hl2 by apply fresh_lookup.
  apply lookup_insert_None in Hl2 as [Hl2 Hne].
  assert (h1 ⊆ <[l2 := ODict m]> (<[l1 := ODict m]> h1)) as Hsub3
    by (apply insert_fresh_extends; assumption).
  assert (∀ l, h1 !! l = None → ¬ In l (instance_cells h1 self)) as Hout.
  { intros l Hl. unfold h1 at 1. rewrite (instance_heap_cells _ _ _ _ _).
    fold h1. intros [<-|[<-|[<-|[]]]].
    - unfold h1 in Hl. rewrite instance_heap_self in Hl. discriminate.
    - unfold h1 in Hl. rewrite (instance_heap_lo _ _ _ _ _ Hf) in Hl.
      discriminate.
    - unfold h1 in Hl. rewrite (instance_heap_lc _ _ _ _ _ Hf) in Hl.
      discriminate. }
  exists l1, l2, m, (rescaled coadd_years n lit, camera_dict). cbv zeta.
  split; [exact Hq1|]. split; [exact Hq2|].
  split; [exact Hl1|]. split; [exact Hl2|]. split; [exact Hne|].
  split; [apply Hout, Hl1|]. split; [apply Hout, Hl2|].
  split; [exact Hsub3|]. split; [exact Hs|].
  split; [exact (instance_state_mono _ _ _ _ Hsub3 Hs)|].
  split; [|split].
  - intros m'.
    assert (h1 ⊆ <[l1 := ODict m']> (<[l2 := ODict m]> (<[l1 := ODict m]> h1)))
      as Hsub4 by (apply insert_fresh_extends; assumption).
    split; [|split].
    + rewrite lookup_insert_ne by exact Hne. apply lookup_insert_eq.
    + exact Hsub4.
    + exact (instance_state_mono _ _ _ _ Hsub4 Hs).
  - intros m'.
    assert (h1 ⊆ <[l2 := ODict m']> (<[l2 := ODict m]> (<[l1 := ODict m]> h1)))
      as Hsub4 by (apply insert_fresh_extends; assumption).
    split; [|split].
    + rewrite lookup_insert_ne by congruence.
      rewrite lookup_insert_ne by congruence. apply lookup_insert_eq.
    + exact Hsub4.
    + exact (instance_state_mono _ _ _ _ Hsub4 Hs).
  - intros k v. apply setitem_run.
    rewrite lookup_insert_ne by congruence. apply lookup_insert_eq.
Qed.

Lemma kwargs_single_band_fresh_witness :
  ∃ h1 self l1 l2 m,
    LSST_new "i" "GAUSSIAN" 10 module_heap = (h1, Return self)
    ∧ kwargs_single_band self h1 = (<[l1 := ODict m]> h1, Return l1)
    ∧ kwargs_single_band self (<[l1 := ODict m]> h1)
      = (<[l2 := ODict m]> (<[l1 := ODict m]> h1), Return l2)
    ∧ l1 ≠ l2.
Proof.
  destruct (LSST_new_ok module_heap "i" "i" i_band_obs i_band_obs_dict 460 10
              templates_intact_module)
    as (self & lo & lc & Hf & E);
    [simpl; tauto | left; reflexivity | reflexivity | lia |].
  destruct (kwargs_single_band_fresh module_heap "i" "GAUSSIAN" 10 _ _
              templates_intact_module E)
    as (l1 & l2 & m & s & Hq1 & Hq2 & _ & _ & Hne & _).
  eexists _, self, l1, l2, m. split; [exact E|]. auto.
Defined.

(** C8: construction copies the selected band dictionary into a new
    dictionary of the instance.  No call of [LSST], whatever its outcome,
    and no sequence of calls changes an existing object, so the band
    globals keep their literals; the objects of a new instance are at
    locations that held nothing before; the global still holds its
    literal after [num_exposures] was rescaled in the copy; a caller's
    write to any object of an instance changes neither a global nor any
    older object, and writes to one of two instances leave the other's
    state alone. *)
Theorem deep_copy_independence
    (h : heap) (band psf_type : string) (coadd_years : Z) :
  templates_intact h →
  (h ⊆ (LSST_new band psf_type coadd_years h).1
   ∧ templates_intact (LSST_new band psf_type coadd_years h).1)
  ∧ (∀ calls, h ⊆ constructions calls h
              ∧ templates_intact (constructions calls h))
  ∧ (∀ h1 self,
       LSST_new band psf_type coadd_years h = (h1, Return self) →
       ∃ name tl lit n lo lc,
         In (name, tl, lit) band_table ∧ norm_band band = name
         ∧ lit !! "num_exposures" = Some (VInt n)
         ∧ instance_cells h1 self = [self; lo; lc]
         ∧ fresh3 h self lo lc
         ∧ instance_state h1 self
           = Some (rescaled coadd_years n lit, camera_dict)
         ∧ h1 !! tl = Some (ODict lit)
         ∧ (∀ l o, In l (instance_cells h1 self) →
              h ⊆ <[l := o]> h1 ∧ templates_intact (<[l := o]> h1))
         ∧ (∀ k v, setitem lo k v h1
                   = (<[lo := ODict (<[k := v]> (rescaled coadd_years n lit))]> h1,
                      Return tt))
         ∧ (∀ band' psf_type' coadd_years' h2 self' s',
              LSST_new band' psf_type' coadd_years' h1 = (h2, Return self') →
              instance_state h2 self' = Some s' →
              instance_state h2 self
              = Some (rescaled coadd_years n lit, camera_dict)
              ∧ (∀ l o, In l (instance_cells h2 self) →
                   instance_state (<[l := o]> h2) self' = Some s')
              ∧ (∀ l o, In l (instance_cells h2 self') →
                   instance_state (<[l := o]> h2) self
                   = Some (rescaled coadd_years n lit, camera_dict)))).
Proof.
  intros Hh.
  pose proof (LSST_new_extends h band psf_type coadd_years Hh) as Hsub.
  split; [split; [exact Hsub | exact (templates_intact_mono _ _ Hsub Hh)]|].
  split; [intros calls; apply constructions_extends, Hh|].
  intros h1 self E.
  pose proof (templates_intact_mono _ _ Hsub Hh) as Hh1. rewrite E in Hh1.
  cbn [fst] in Hh1.
  destruct (LSST_new_Return _ _ _ _ _ _ Hh E)
    as (name & tl & lit & n & lo & lc & Hin & Hb & Hp & Hc & Hn & Hf & ->).
  set (d := rescaled coadd_years n lit) in *.
  pose proof (instance_heap_state h self lo lc d Hf) as Hs.
  pose proof (instance_heap_cells h self lo lc d) as Hcells.
  pose proof (instance_heap_extends h self lo lc d Hf) as Hext.
  exists name, tl, lit, n, lo, lc.
  split; [exact Hin|]. split.
  { unfold band_table in Hin. cbn [In] in Hin.
    repeat (destruct Hin as [[= <- <- <-]|Hin];
            [destruct Hb as [->| ->]; reflexivity|]).
    destruct Hin. }
  split; [exact Hn|]. split; [exact Hcells|]. split; [exact Hf|].
  split; [exact Hs|].
  split; [exact (templates_intact_lookup _ _ _ _ Hh1 Hin)|].
  assert (∀ l, In l [self; lo; lc] → h !! l = None) as Hnew.
  { destruct Hf as (H1 & H2 & H3 & _). intros l [<-|[<-|[<-|[]]]]; assumption. }
  split; [|split].
  - intros l o Hl. rewrite Hcells in Hl.
    assert (h ⊆ <[l := o]> (instance_heap h self lo lc d)) as Hsub'
      by (apply insert_fresh_extends; auto).
    split; [exact Hsub' | exact (templates_intact_mono _ _ Hsub' Hh)].
  - intros k v. apply setitem_run, instance_heap_lo, Hf.
  - intros band' psf_type' coadd_years' h2 self' s' E' Hs'.
    destruct (LSST_new_Return _ _ _ _ _ _ Hh1 E')
      as (name' & tl' & lit' & n' & lo' & lc' & _ & _ & _ & _ & _ & Hf' & ->).
    set (h1 := instance_heap h self lo lc d) in *.
    pose proof (instance_heap_extends h1 self' lo' lc'
                  (rescaled coadd_years' n' lit') Hf') as Hext'.
    rewrite (instance_heap_state _ _ _ _ _ Hf') in Hs'.
    injection Hs' as <-.
    assert (is_Some (h1 !! self)) as Hself
      by (unfold h1; rewrite instance_heap_self; eauto).
    split; [exact (instance_state_mono _ _ _ _ Hext' Hs)|]. split.
    + intros l o Hl.
      rewrite (instance_cells_mono _ _ _ Hext' Hself) in Hl.
      rewrite Hcells in Hl.
      assert (is_Some (h1 !! l)) as [x Hx].
      { destruct Hl as [<-|[<-|[<-|[]]]]; unfold h1.
        - rewrite instance_heap_self. eauto.
        - rewrite (instance_heap_lo _ _ _ _ _ Hf). eauto.
        - rewrite (instance_heap_lc _ _ _ _ _ Hf). eauto. }
      destruct Hf' as (H1 & H2 & H3 & H4).
      apply instance_state_insert_outside;
        [repeat split; tauto | intros -> ..]; congruence.
    + intros l o Hl.
      rewrite (instance_heap_cells _ _ _ _ _) in Hl.
      assert (h1 !! l = None) as Hnone.
      { destruct Hf' as (H1 & H2 & H3 & _).
        destruct Hl as [<-|[<-|[<-|[]]]]; assumption. }
      apply (instance_state_mono h1); [|exact Hs].
      apply insert_fresh_extends; assumption.
Qed.

Lemma deep_copy_independence_witness :
  ∃ h1 self d_obs,
    LSST_new "g" "GAUSSIAN" 5 module_heap = (h1, Return self)
    ∧ instance_state h1 self = Some (d_obs, camera_dict)
    ∧ d_obs !! "num_exposures" = Some (VInt 100)
    ∧ h1 !! g_band_obs = Some (ODict g_band_obs_dict)
    ∧ g_band_obs_dict !! "num_exposures" = Some (VInt 200)
    ∧ module_heap ⊆ h1.
Proof.
  destruct (LSST_new_ok module_heap "g" "g" g_band_obs g_band_obs_dict 200 5
              templates_intact_module)
    as (self & lo & lc & Hf & E);
    [simpl; tauto | left; reflexivity | reflexivity | lia |].
  destruct (deep_copy_independence module_heap "g" "GAUSSIAN" 5
              templates_intact_module) as ((Hsub & Hint) & _ & Hnew).
  destruct (Hnew _ _ E)
    as (name & tl & lit & n & lo' & lc' & Hin & Hname & Hn & _ & _ & Hs & _).
  rewrite E in Hsub, Hint. cbn [fst] in Hsub, Hint.
  vm_compute in Hname. subst name.
  unfold band_table in Hin. cbn [In] in Hin.
  assert (lit = g_band_obs_dict ∧ tl = g_band_obs) as [-> ->]
    by (intuition congruence).
  assert (n = 200) as -> by (vm_compute in Hn; congruence).
  eexists _, self, _. split; [exact E|]. split; [exact Hs|].
  split; [reflexivity|].
  split; [exact (templates_intact_lookup _ _ _ _ Hint (or_introl eq_refl))|].
  split; [reflexivity | exact Hsub].
Defined.

(** * Further properties of the constructor and the query *)

(** ** The band argument *)

Lemma char_lower_idem (c : ascii) :
  PyStr.char_lower (PyStr.char_lower c) = PyStr.char_lower c.
Proof. destruct c as [[] [] [] [] [] [] [] []]; reflexivity. Qed.

Lemma char_isalpha_lower (c : ascii) :
  PyStr.char_isalpha (PyStr.char_lower c) = PyStr.char_isalpha c.
Proof. destruct c as [[] [] [] [] [] [] [] []]; reflexivity. Qed.

Lemma lower_idem (s : string) : PyStr.lower (PyStr.lower s) = PyStr.lower s.
Proof.
  induction s as [|c s IH]; [reflexivity|].
  cbn [PyStr.lower]. rewrite char_lower_idem, IH. reflexivity.
Qed.

Lemma all_alpha_lower (s : string) :
  PyStr.all_alpha (PyStr.lower s) = PyStr.all_alpha s.
Proof.
  induction s as [|c s IH]; [reflexivity|].
  cbn [PyStr.lower PyStr.all_alpha]. rewrite char_isalpha_lower, IH.
  reflexivity.
Qed.

Lemma isalpha_lower (s : string) :
  PyStr.isalpha (PyStr.lower s) = PyStr.isalpha s.
Proof.
  destruct s as [|c s]; [reflexivity|].
  change (PyStr.all_alpha (PyStr.lower (String c s))
          = PyStr.all_alpha (String c s)).
  apply all_alpha_lower.
Qed.

Lemma norm_band_idem (band : string) :
  norm_band (norm_band band) = norm_band band.
Proof.
  unfold norm_band. destruct (PyStr.isalpha band) eqn:E.
  - rewrite isalpha_lower, E. apply lower_idem.
  - rewrite E. reflexivity.
Qed.

Lemma LSST_new_norm_band band psf_type coadd_years (h : heap) :
  LSST_new (norm_band band) psf_type coadd_years h
  = LSST_new band psf_type coadd_years h.
Proof.
  unfold LSST_new.
  rewrite !(bind_return _ _ _ _ _ (alloc_run _ _)).
  rewrite !LSST_init_unfold, norm_band_idem. reflexivity.
Qed.

(** X1: the band is matched without regard to case: for an alphabetic
    band string, the call with the lowercased string has the same outcome
    and leaves the same store as the call with the string itself. *)
Theorem band_case_insensitive
    (band psf_type : string) (coadd_years : Z) (h : heap) :
  PyStr.isalpha band = true →
  LSST_new (PyStr.lower band) psf_type coadd_years h
  = LSST_new band psf_type coadd_years h.
Proof.
  intros Halpha. rewrite <- (LSST_new_norm_band band).
  unfold norm_band. rewrite Halpha. reflexivity.
Qed.

Lemma band_case_insensitive_witness :
  PyStr.lower "R" = "r"
  ∧ LSST_new "r" "GAUSSIAN" 7 module_heap = LSST_new "R" "GAUSSIAN" 7 module_heap.
Proof.
  split; [reflexivity|].
  apply (band_case_insensitive "R" "GAUSSIAN" 7 module_heap). reflexivity.
Defined.

Lemma supported_bands_length (band : string) :
  In band supported_bands → String.length band = 1%nat.
Proof.
  intros Hin. simpl in Hin.
  repeat (destruct Hin as [<-|Hin]; [reflexivity|]). destruct Hin.
Qed.

(** X2: a band string is never trimmed or cut: every string whose length
    is not 1, the empty string and a letter with a space around it
    included, raises the band error, whatever the other arguments. *)
Theorem band_length_not_one
    (band psf_type : string) (coadd_years : Z) (h : heap) :
  String.length band ≠ 1%nat →
  (LSST_new band psf_type coadd_years h).2
  = Raise (InvalidBand (norm_band band)).
Proof.
  intros Hlen.
  rewrite (LSST_new_invalid_band h band psf_type coadd_years); [reflexivity|].
  apply select_band_None. intros Hin.
  apply Hlen, supported_bands_length, Hin.
Qed.

Lemma band_length_not_one_witness :
  (LSST_new " g" "GAUSSIAN" 10 module_heap).2 = Raise (InvalidBand " g")
  ∧ (LSST_new "" "GAUSSIAN" 10 module_heap).2 = Raise (InvalidBand "").
Proof.
  split.
  - apply (band_length_not_one " g" "GAUSSIAN" 10 module_heap). discriminate.
  - apply (band_length_not_one "" "GAUSSIAN" 10 module_heap). discriminate.
Defined.

(** ** The rescaled exposure count *)

Lemma band_table_baseline_tens name tl lit :
  In (name, tl, lit) band_table →
  ∃ q, lit !! "num_exposures" = Some (VInt (10 * q)) ∧ (0 < q)%Z.
Proof.
  intros Hin. simpl in Hin.
  destruct Hin as [[= <- <- <-]|Hin]; [exists 20%Z; split; reflexivity|].
  destruct Hin as [[= <- <- <-]|Hin]; [exists 46%Z; split; reflexivity|].
  destruct Hin as [[= <- <- <-]|Hin]; [exists 46%Z; split; reflexivity|].
  destruct Hin as [[= <- <- <-]|Hin]; [exists 14%Z; split; reflexivity|].
  destruct Hin as [[= <- <- <-]|Hin]; [exists 40%Z; split; reflexivity|].
  destruct Hin as [[= <- <- <-]|Hin]; [exists 40%Z; split; reflexivity|].
  destruct Hin.
Qed.

Lemma rescaled_other coadd_years n (d : gmap string value) k :
  k ≠ "num_exposures" → rescaled coadd_years n d !! k = d !! k.
Proof.
  intros Hk. unfold rescaled. destruct (coadd_years =? 10)%Z; [reflexivity|].
  apply lookup_insert_ne. congruence.
Qed.

(** X3: with the band dictionaries of the module the floor division never
    truncates: for every band and every [coadd_years] from 1 to 10 the
    stored count [n'] satisfies [10 * n' = baseline * coadd_years], and
    it is positive and at most the baseline. *)
Theorem num_exposures_exact
    (h : heap) (band name : string) (tl : loc) (lit : gmap string value)
    (coadd_years : Z) :
  templates_intact h →
  In (name, tl, lit) band_table → band = name ∨ band = uppercase name →
  (1 <= coadd_years <= 10)%Z →
  ∃ h' self d_obs d_cam baseline n',
    LSST_new band "GAUSSIAN" coadd_years h = (h', Return self)
    ∧ instance_state h' self = Some (d_obs, d_cam)
    ∧ num_exposures lit = Some baseline
    ∧ num_exposures d_obs = Some n'
    ∧ (10 * n' = baseline * coadd_years)%Z
    ∧ (0 < n' <= baseline)%Z.
Proof.
  intros Hh Hin Hb Hc.
  destruct (band_table_baseline_tens _ _ _ Hin) as (q & Hq & Hpos).
  destruct (LSST_new_ok h band name tl lit (10 * q) coadd_years
              Hh Hin Hb Hq Hc) as (self & lo & lc & Hf & E).
  pose proof (rescaled_num_exposures coadd_years (10 * q) lit Hq Hc) as Hr.
  assert (10 * q * coadd_years / 10 = q * coadd_years)%Z as Hdiv.
  { replace (10 * q * coadd_years)%Z with (q * coadd_years * 10)%Z by lia.
    apply Z.div_mul. lia. }
  rewrite Hdiv in Hr.
  exists (instance_heap h self lo lc (rescaled coadd_years (10 * q) lit)),
    self, (rescaled coadd_years (10 * q) lit), camera_dict,
    (10 * q)%Z, (q * coadd_years)%Z.
  split; [exact E|]. split; [apply instance_heap_state, Hf|].
  split; [apply num_exposures_Some, Hq|].
  split; [apply num_exposures_Some, Hr|].
  split; [lia | nia].
Qed.

Lemma num_exposures_exact_witness :
  ∃ h' self d_obs d_cam,
    LSST_new "u" "GAUSSIAN" 3 module_heap = (h', Return self)
    ∧ instance_state h' self = Some (d_obs, d_cam)
    ∧ num_exposures d_obs = Some 42%Z.
Proof.
  destruct (num_exposures_exact module_heap "u" "u" u_band_obs
              u_band_obs_dict 3 templates_intact_module)
    as (h' & self & d_obs & d_cam & baseline & n' & E & Hs & Hb & Hn & Hex & _);
    [simpl; tauto | left; reflexivity | lia |].
  exists h', self, d_obs, d_cam. split; [exact E|]. split; [exact Hs|].
  rewrite Hn. f_equal. vm_compute in Hb. injection Hb as <-. lia.
Defined.

(** X4: the rescaling touches [num_exposures] only: the dictionary of a
    new instance has the keys of the band's global, and under every other
    key the value of the global, for every [coadd_years]. *)
Theorem rescale_only_num_exposures
    (h : heap) (band psf_type : string) (coadd_years : Z)
    (h1 : heap) (self : loc) :
  templates_intact h →
  LSST_new band psf_type coadd_years h = (h1, Return self) →
  ∃ name tl lit d_obs d_cam,
    In (name, tl, lit) band_table ∧ norm_band band = name
    ∧ instance_state h1 self = Some (d_obs, d_cam)
    ∧ dom d_obs = dom lit
    ∧ (∀ k, k ≠ "num_exposures" → d_obs !! k = lit !! k).
Proof.
  intros Hh E.
  destruct (LSST_new_Return _ _ _ _ _ _ Hh E)
    as (name & tl & lit & n & lo & lc & Hin & Hb & Hp & Hc & Hn & Hf & ->).
  exists name, tl, lit, (rescaled coadd_years n lit), camera_dict.
  split; [exact Hin|]. split.
  { unfold band_table in Hin. cbn [In] in Hin.
    repeat (destruct Hin as [[= <- <- <-]|Hin];
            [destruct Hb as [->| ->]; reflexivity|]).
    destruct Hin. }
  split; [apply instance_heap_state, Hf|].
  split; [apply rescaled_dom; eauto|].
  intros k Hk. apply rescaled_other, Hk.
Qed.

Lemma rescale_only_num_exposures_witness :
  ∃ h1 self d_obs d_cam,
    LSST_new "z" "GAUSSIAN" 2 module_heap = (h1, Return self)
    ∧ instance_state h1 self = Some (d_obs, d_cam)
    ∧ d_obs !! "seeing" = Some (VFloat 0.69)
    ∧ d_obs !! "sky_brightness" = Some (VFloat 19.6).
Proof.
  destruct (LSST_new_ok module_heap "z" "z" z_band_obs z_band_obs_dict 400 2
              templates_intact_module)
    as (self & lo & lc & Hf & E);
    [simpl; tauto | left; reflexivity | reflexivity | lia |].
  destruct (rescale_only_num_exposures module_heap "z" "GAUSSIAN" 2 _ _
              templates_intact_module E)
    as (name & tl & lit & d_obs & d_cam & Hin & Hname & Hs & _ & Hother).
  vm_compute in Hname. subst name.
  unfold band_table in Hin. cbn [In] in Hin.
  assert (lit = z_band_obs_dict) as -> by intuition congruence.
  eexists _, self, d_obs, d_cam. split; [exact E|]. split; [exact Hs|].
  split; (rewrite Hother; [reflexivity | discriminate]).
Defined.

(** ** What a call leaves in the store *)

Lemma abandoned_heap_size h self lo d :
  h !! self = None → h !! lo = None → self ≠ lo →
  size (abandoned_heap h self lo d) = (size h + 2)%nat.
Proof.
  intros Hs Hl Hne. unfold abandoned_heap.
  rewrite map_size_insert_None
    by (rewrite lookup_insert_ne by congruence; exact Hs).
  rewrite map_size_insert_None by exact Hl. lia.
Qed.

Lemma instance_heap_size h self lo lc d :
  fresh3 h self lo lc → size (instance_heap h self lo lc d) = (size h + 3)%nat.
Proof.
  intros (Hs & Hl & Hc & Hsl & Hsc & Hlc). unfold instance_heap.
  rewrite map_size_insert_None
    by (rewrite !lookup_insert_ne by congruence; exact Hs).
  rewrite map_size_insert_None
    by (rewrite lookup_insert_ne by congruence; exact Hc).
  rewrite map_size_insert_None by exact Hl. lia.
Qed.

(** X5: the arguments are checked while the instance is being built, not
    before: a call that raises the band error has created one object (the
    instance), a call that raises the PSF or the coadd-years error has
    created two (the instance and its copy of the band dictionary), and a
    call that returns has created three; every older object is
    unchanged. *)
Theorem objects_created
    (h : heap) (band psf_type : string) (coadd_years : Z) :
  templates_intact h →
  h ⊆ (LSST_new band psf_type coadd_years h).1
  ∧ ((LSST_new band psf_type coadd_years h).2
     = Raise (InvalidBand (norm_band band)) →
     size (LSST_new band psf_type coadd_years h).1 = (size h + 1)%nat)
  ∧ ((LSST_new band psf_type coadd_years h).2
     = Raise (UnsupportedPSF psf_type)
     ∨ (LSST_new band psf_type coadd_years h).2
       = Raise (InvalidCoaddYears coadd_years) →
     size (LSST_new band psf_type coadd_years h).1 = (size h + 2)%nat)
  ∧ (∀ self, (LSST_new band psf_type coadd_years h).2 = Return self →
     size (LSST_new band psf_type coadd_years h).1 = (size h + 3)%nat).
Proof.
  intros Hh.
  pose proof (LSST_new_construction h band psf_type coadd_years Hh) as C.
  split; [exact (construction_extends _ _ _ _ _ _ C)|].
  destruct C as [Hno|name tl lit self lo Hin Hb Hp Hs Hl Hne
                 |name tl lit self lo Hin Hb Hp Hc Hs Hl Hne
                 |name tl lit n self lo lc Hin Hb Hp Hc Hn Hf].
  - split; [|split].
    + intros _. rewrite map_size_insert_None by apply fresh_lookup. lia.
    + intros [E|E]; exfalso.
      * apply (InvalidBand_not_UnsupportedPSF (norm_band band) psf_type).
        congruence.
      * apply (InvalidBand_not_InvalidCoaddYears (norm_band band) coadd_years).
        congruence.
    + intros self' E. discriminate E.
  - split; [|split].
    + intros E. exfalso.
      apply (InvalidBand_not_UnsupportedPSF (norm_band band) psf_type).
      congruence.
    + intros _. apply abandoned_heap_size; assumption.
    + intros self' E. discriminate E.
  - split; [|split].
    + intros E. exfalso.
      apply (InvalidBand_not_InvalidCoaddYears (norm_band band) coadd_years).
      congruence.
    + intros _. apply abandoned_heap_size; assumption.
    + intros self' E. discriminate E.
  - split; [|split].
    + intros E. discriminate E.
    + intros [E|E]; discriminate E.
    + intros _ _. apply instance_heap_size, Hf.
Qed.

Lemma objects_created_witness :
  size (LSST_new "x" "Gaussian" 10 module_heap).1 = 7%nat
  ∧ size (LSST_new "g" "Gaussian" 10 module_heap).1 = 8%nat
  ∧ size (LSST_new "g" "GAUSSIAN" 10 module_heap).1 = 9%nat.
Proof.
  split; [|split].
  - apply (objects_created module_heap "x" "Gaussian" 10
             templates_intact_module). reflexivity.
  - apply (objects_created module_heap "g" "Gaussian" 10
             templates_intact_module). left. reflexivity.
  - apply (objects_created module_heap "g" "GAUSSIAN" 10
             templates_intact_module) with (self := 7%positive). reflexivity.
Defined.

(** ** A band global that a caller has changed *)

Section ChangedGlobal.
Variables (h : heap) (band : string) (coadd_years : Z).
Variables (tl : loc) (d : gmap string value).
Hypothesis Hsel : select_band (norm_band band) = Some tl.
Hypothesis Htl : h !! tl = Some (ODict d).

Local Abbreviation self := (new_self h).
Local Abbreviation lo := (new_obs h).

(** [__init__] up to the coadd statement, for arguments that pass the
    first two checks and the range check. *)
Lemma LSST_new_to_coadd h' (r : outcome unit) :
  (1 <= coadd_years <= 10)%Z →
  (∀ h3, h3 = abandoned_heap h self lo d →
     (if negb (coadd_years =? 10)%Z then
        o <- getattr self "obs" ;;
        n <- getitem o "num_exposures" ;;
        v <- mul_floordiv10 coadd_years n ;;
        o' <- getattr self "obs" ;;
        setitem o' "num_exposures" v
      else ret tt) h3 = (h', r)) →
  LSST_new band "GAUSSIAN" coadd_years h
  = match r with
    | Return _ =>
        ((c <- alloc (ODict camera_dict) ;; setattr self "camera" c ;;; ret self) h')
    | Raise e => (h', Raise e)
    | Unmodelled => (h', Unmodelled)
    end.
Proof.
  intros Hc Hblock. unfold LSST_new.
  rewrite (bind_return _ _ _ _ _ (alloc_run _ _)). fold self.
  rewrite LSST_init_unfold, Hsel. unfold init_from.
  unfold bind at 1. unfold bind at 1.
  rewrite (set_obs_run h tl d Htl).
  rewrite String.eqb_refl. cbn [negb]. rewrite bind_ret.
  replace ((coadd_years >? 10)%Z || (coadd_years <? 1)%Z) with false
    by (symmetry; apply orb_false_iff; lia).
  unfold bind at 1. rewrite (Hblock _ eq_refl).
  destruct r; reflexivity.
Qed.

Lemma LSST_new_ten :
  coadd_years = 10%Z →
  ∃ lc, fresh3 h self lo lc ∧
    LSST_new band "GAUSSIAN" coadd_years h
    = (instance_heap h self lo lc d, Return self).
Proof.
  intros E10.
  exists (fresh (dom (abandoned_heap h self lo d))).
  split; [exact (camera_fresh h tl d Htl d)|].
  rewrite (LSST_new_to_coadd (abandoned_heap h self lo d) (Return tt))
    by (lia || (intros h3 ->; rewrite E10; reflexivity)).
  unfold bind at 1.
  pose proof (camera_run h d) as Hcam. cbv zeta in Hcam.
  unfold bind at 1 in Hcam. unfold bind at 1.
  destruct (alloc (ODict camera_dict) (abandoned_heap h self lo d))
    as [h4 [c| |]] eqn:Ha; try discriminate Hcam.
  rewrite Hcam. reflexivity.
Qed.

Lemma LSST_new_KeyError :
  (1 <= coadd_years < 10)%Z →
  d !! "num_exposures" = None →
  LSST_new band "GAUSSIAN" coadd_years h
  = (abandoned_heap h self lo d, Raise (KeyError "num_exposures")).
Proof.
  intros Hc Hnone.
  rewrite (LSST_new_to_coadd (abandoned_heap h self lo d)
             (Raise (KeyError "num_exposures"))); [reflexivity | lia |].
  intros h3 ->.
  replace (coadd_years =? 10)%Z with false by (symmetry; apply Z.eqb_neq; lia).
  cbn [negb].
  rewrite (bind_return _ _ _ _ _
             (getattr_run _ _ _ _ _ (abandoned_self h d)
                (lookup_insert_eq _ _ _))).
  apply bind_raise. unfold getitem.
  rewrite (bind_return _ _ _ _ _ (read_dict_run _ _ _ (abandoned_lo h tl d Htl))).
  rewrite Hnone. reflexivity.
Qed.

Lemma LSST_new_TypeError s :
  (1 <= coadd_years < 10)%Z →
  d !! "num_exposures" = Some (VStr s) →
  LSST_new band "GAUSSIAN" coadd_years h
  = (abandoned_heap h self lo d, Raise TypeError).
Proof.
  intros Hc Hstr.
  rewrite (LSST_new_to_coadd (abandoned_heap h self lo d)
             (Raise TypeError)); [reflexivity | lia |].
  intros h3 ->.
  replace (coadd_years =? 10)%Z with false by (symmetry; apply Z.eqb_neq; lia).
  cbn [negb].
  rewrite (bind_return _ _ _ _ _
             (getattr_run _ _ _ _ _ (abandoned_self h d)
                (lookup_insert_eq _ _ _))).
  assert (getitem lo "num_exposures" (abandoned_heap h self lo d)
          = (abandoned_heap h self lo d, Return (VStr s))) as Hget.
  { unfold getitem.
    rewrite (bind_return _ _ _ _ _
               (read_dict_run _ _ _ (abandoned_lo h tl d Htl))).
    rewrite Hstr. reflexivity. }
  rewrite (bind_return _ _ _ _ _ Hget). reflexivity.
Qed.

End ChangedGlobal.

(** X6: the band global is read when [LSST] is called: whatever
    dictionary it holds then (with an [int] under [num_exposures]) is the
    one that is copied and rescaled, and the global itself is left as it
    was. *)
Theorem global_read_at_call
    (h : heap) (band name : string) (tl : loc) (lit d : gmap string value)
    (n coadd_years : Z) :
  In (name, tl, lit) band_table → band = name ∨ band = uppercase name →
  h !! tl = Some (ODict d) →
  d !! "num_exposures" = Some (VInt n) →
  (1 <= coadd_years <= 10)%Z →
  ∃ h' self,
    LSST_new band "GAUSSIAN" coadd_years h = (h', Return self)
    ∧ instance_state h' self = Some (rescaled coadd_years n d, camera_dict)
    ∧ h' !! tl = Some (ODict d).
Proof.
  intros Hin Hb Htl Hn Hc.
  pose proof (select_band_supported _ _ _ _ Hin Hb) as Hsel.
  destruct (LSST_new_success h band "GAUSSIAN" coadd_years tl d
              Hsel Htl n eq_refl Hc Hn) as (lc & Hf & E).
  eexists _, _. split; [exact E|].
  split; [apply instance_heap_state, Hf|].
  exact (lookup_weaken _ _ _ _ Htl (instance_heap_extends _ _ _ _ _ Hf)).
Qed.

Lemma global_read_at_call_witness :
  ∃ h' self d_obs,
    LSST_new "g" "GAUSSIAN" 5
      (<[g_band_obs := ODict (<["num_exposures" := VInt 50]> g_band_obs_dict)]>
         module_heap)
    = (h', Return self)
    ∧ instance_state h' self = Some (d_obs, camera_dict)
    ∧ d_obs !! "num_exposures" = Some (VInt 25).
Proof.
  destruct (global_read_at_call
              (<[g_band_obs := ODict (<["num_exposures" := VInt 50]> g_band_obs_dict)]>
                 module_heap)
              "g" "g" g_band_obs g_band_obs_dict
              (<["num_exposures" := VInt 50]> g_band_obs_dict) 50 5)
    as (h' & self & E & Hs & _);
    [simpl; tauto | left; reflexivity | reflexivity | reflexivity | lia |].
  eexists h', self, _. split; [exact E|]. split; [exact Hs|]. reflexivity.
Defined.

(** X7: a band global without [num_exposures], or with a [str] there, is
    noticed only when the count is rescaled: with [coadd_years = 10] the
    call returns an instance holding a copy of the global; with
    [coadd_years] from 1 to 9 it raises [KeyError('num_exposures')] for
    the missing key and [TypeError] for the [str]. *)
Theorem global_without_count
    (h : heap) (band name : string) (tl : loc) (lit d : gmap string value)
    (coadd_years : Z) :
  In (name, tl, lit) band_table → band = name ∨ band = uppercase name →
  h !! tl = Some (ODict d) →
  (coadd_years = 10%Z →
   ∃ h' self,
     LSST_new band "GAUSSIAN" coadd_years h = (h', Return self)
     ∧ instance_state h' self = Some (d, camera_dict))
  ∧ ((1 <= coadd_years < 10)%Z → d !! "num_exposures" = None →
     (LSST_new band "GAUSSIAN" coadd_years h).2
     = Raise (KeyError "num_exposures"))
  ∧ ((1 <= coadd_years < 10)%Z →
     (∃ s, d !! "num_exposures" = Some (VStr s)) →
     (LSST_new band "GAUSSIAN" coadd_years h).2 = Raise TypeError).
Proof.
  intros Hin Hb Htl.
  pose proof (select_band_supported _ _ _ _ Hin Hb) as Hsel.
  split; [|split].
  - intros E10.
    destruct (LSST_new_ten h band coadd_years tl d Hsel Htl E10)
      as (lc & Hf & E).
    eexists _, _. split; [exact E|]. apply instance_heap_state, Hf.
  - intros Hc Hnone.
    rewrite (LSST_new_KeyError h band coadd_years tl d Hsel Htl Hc Hnone).
    reflexivity.
  - intros Hc [s Hs].
    rewrite (LSST_new_TypeError h band coadd_years tl d Hsel Htl s Hc Hs).
    reflexivity.
Qed.

Lemma global_without_count_witness :
  (LSST_new "y" "GAUSSIAN" 9
     (<[y_band_obs := ODict (delete "num_exposures" y_band_obs_dict)]>
        module_heap)).2
  = Raise (KeyError "num_exposures")
  ∧ ∃ h' self,
      LSST_new "y" "GAUSSIAN" 10
        (<[y_band_obs := ODict (delete "num_exposures" y_band_obs_dict)]>
           module_heap)
      = (h', Return self)
      ∧ instance_state h' self
        = Some (delete "num_exposures" y_band_obs_dict, camera_dict).
Proof.
  split.
  - apply (global_without_count
             (<[y_band_obs := ODict (delete "num_exposures" y_band_obs_dict)]>
                module_heap)
             "y" "y" y_band_obs y_band_obs_dict
             (delete "num_exposures" y_band_obs_dict) 9);
      [simpl; tauto | left; reflexivity | reflexivity | lia | reflexivity].
  - apply (global_without_count
             (<[y_band_obs := ODict (delete "num_exposures" y_band_obs_dict)]>
                module_heap)
             "y" "y" y_band_obs y_band_obs_dict
             (delete "num_exposures" y_band_obs_dict) 10);
      [simpl; tauto | left; reflexivity | reflexivity | reflexivity].
Defined.

(** ** The query and the state of the instance *)

(** X8: the query reads [self.camera] before [self.obs]: on an instance
    without the attribute [camera] it raises [AttributeError] for
    [camera], whether or not [obs] is there; with [camera] but without
    [obs] it raises [AttributeError] for [obs]; in both cases the store
    is left as it was. *)
Theorem query_missing_attribute
    (h : heap) (self : loc) (attrs : gmap string loc) :
  h !! self = Some (OInstance attrs) →
  (attrs !! "camera" = None →
   kwargs_single_band self h = (h, Raise (AttributeError "camera")))
  ∧ (is_Some (attrs !! "camera") → attrs !! "obs" = None →
     kwargs_single_band self h = (h, Raise (AttributeError "obs"))).
Proof.
  intros Hs. split.
  - intros Hc. unfold kwargs_single_band.
    apply bind_raise. unfold getattr. rewrite Hs, Hc. reflexivity.
  - intros [lc Hc] Ho. unfold kwargs_single_band.
    rewrite (bind_return _ _ _ _ _ (getattr_run _ _ _ _ _ Hs Hc)).
    apply bind_raise. unfold getattr. rewrite Hs, Ho. reflexivity.
Qed.

Lemma query_missing_attribute_witness :
  (LSST_new "g" "gaussian" 10 module_heap).1 !! 7%positive
  = Some (OInstance (<["obs" := 8%positive]> ∅))
  ∧ (kwargs_single_band 7%positive (LSST_new "g" "gaussian" 10 module_heap).1).2
    = Raise (AttributeError "camera").
Proof.
  split; [reflexivity|].
  rewrite (proj1 (query_missing_attribute
                    (LSST_new "g" "gaussian" 10 module_heap).1 7%positive
                    (<["obs" := 8%positive]> ∅) eq_refl) eq_refl).
  reflexivity.
Defined.

Lemma band_table_norm band name tl lit :
  In (name, tl, lit) band_table → band = name ∨ band = uppercase name →
  norm_band band = name.
Proof.
  intros Hin Hb. unfold band_table in Hin. cbn [In] in Hin.
  repeat (destruct Hin as [[= <- <- <-]|Hin];
          [destruct Hb as [->| ->]; reflexivity|]).
  destruct Hin.
Qed.

Lemma band_table_functional name tl lit tl' lit' :
  In (name, tl, lit) band_table → In (name, tl', lit') band_table →
  tl = tl' ∧ lit = lit'.
Proof.
  intros H1 H2. unfold band_table in H1, H2. cbn [In] in H1, H2.
  repeat (destruct H1 as [[= <- <- <-]|H1];
    [ repeat (destruct H2 as [H2|H2];
              [first [discriminate H2 | injection H2 as <- <-; auto]|]);
      destruct H2 |]).
  destruct H1.
Qed.

Lemma instance_state_lookup (g : heap) self attrs lo lc d_obs d_cam :
  g !! self = Some (OInstance attrs) →
  attrs !! "obs" = Some lo → attrs !! "camera" = Some lc →
  g !! lo = Some (ODict d_obs) → g !! lc = Some (ODict d_cam) →
  instance_state g self = Some (d_obs, d_cam).
Proof.
  intros Hs Ho Hc Hlo Hlc. unfold instance_state.
  rewrite Hs, Ho, Hc, Hlo, Hlc. reflexivity.
Qed.

(** X9: a call of [LSST] with the same arguments always builds the same
    state, in whatever store (with intact band globals) it is made; two
    calls in a row return two different instances. *)
Theorem construction_store_independent
    (h g : heap) (band psf_type : string) (coadd_years : Z)
    (h1 g1 : heap) (s1 s2 : loc) :
  templates_intact h → templates_intact g →
  LSST_new band psf_type coadd_years h = (h1, Return s1) →
  LSST_new band psf_type coadd_years g = (g1, Return s2) →
  (∃ s, instance_state h1 s1 = Some s ∧ instance_state g1 s2 = Some s)
  ∧ (g = h1 → s2 ≠ s1).
Proof.
  intros Hh Hg E1 E2.
  destruct (LSST_new_Return _ _ _ _ _ _ Hh E1)
    as (name & tl & lit & n & lo & lc & Hin & Hb & _ & _ & Hn & Hf & ->).
  destruct (LSST_new_Return _ _ _ _ _ _ Hg E2)
    as (name' & tl' & lit' & n' & lo' & lc' & Hin' & Hb' & _ & _ & Hn' & Hf' & ->).
  pose proof (band_table_norm _ _ _ _ Hin Hb) as Hname.
  pose proof (band_table_norm _ _ _ _ Hin' Hb') as Hname'.
  rewrite Hname in Hname'. subst name'.
  destruct (band_table_functional _ _ _ _ _ Hin Hin') as [<- <-].
  assert (n' = n) as -> by congruence.
  split.
  - exists (rescaled coadd_years n lit, camera_dict).
    split; apply instance_heap_state; assumption.
  - intros -> ->. destruct Hf' as (Hs2 & _).
    rewrite instance_heap_self in Hs2. discriminate.
Qed.

Lemma construction_store_independent_witness :
  ∃ h1 s1 h2 s2 s,
    LSST_new "i" "GAUSSIAN" 4 module_heap = (h1, Return s1)
    ∧ LSST_new "i" "GAUSSIAN" 4 h1 = (h2, Return s2)
    ∧ instance_state h1 s1 = Some s ∧ instance_state h2 s2 = Some s
    ∧ s2 ≠ s1.
Proof.
  destruct (LSST_new_ok module_heap "i" "i" i_band_obs i_band_obs_dict 460 4
              templates_intact_module)
    as (s1 & lo & lc & Hf & E1);
    [simpl; tauto | left; reflexivity | reflexivity | lia |].
  pose proof (templates_intact_mono _ _
                (instance_heap_extends _ _ _ _
                   (rescaled 4 460 i_band_obs_dict) Hf)
                templates_intact_module) as Hh1.
  destruct (LSST_new_ok _ "i" "i" i_band_obs i_band_obs_dict 460 4 Hh1)
    as (s2 & lo' & lc' & Hf' & E2);
    [simpl; tauto | left; reflexivity | reflexivity | lia |].
  destruct (construction_store_independent _ _ "i" "GAUSSIAN" 4 _ _ s1 s2
              templates_intact_module Hh1 E1 E2) as [(s & Hs1 & Hs2) Hne].
  eexists _, s1, _, s2, s. split; [exact E1|]. split; [exact E2|].
  split; [exact Hs1|]. split; [exact Hs2|]. apply Hne. reflexivity.
Defined.

Lemma camera_keys_not_in_band name tl lit k :
  In (name, tl, lit) band_table → is_Some (camera_dict !! k) → lit !! k = None.
Proof.
  intros Hin Hk. apply not_elem_of_dom. apply elem_of_dom in Hk.
  rewrite (band_table_keys _ _ _ Hin). rewrite camera_dict_keys in Hk.
  set_unfold. intuition congruence.
Qed.

Lemma instance_heap_allocated h self lo lc d l :
  fresh3 h self lo lc → instance_heap h self lo lc d !! l = None →
  l ≠ self ∧ l ≠ lo ∧ l ≠ lc.
Proof.
  intros Hf Hl. repeat split; intros ->.
  - rewrite instance_heap_self in Hl. discriminate.
  - rewrite (instance_heap_lo _ _ _ _ _ Hf) in Hl. discriminate.
  - rewrite (instance_heap_lc _ _ _ _ _ Hf) in Hl. discriminate.
Qed.

(** X10: the mapping the query returns for a new instance, entry by
    entry: [num_exposures] is the rescaled count, every other key of the
    band's global has the global's value, every key of the camera
    dictionary has the camera's value, and there are nine entries.
    ([merge_dicts] as modelled above.) *)
Theorem query_after_construction
    (h : heap) (band psf_type : string) (coadd_years : Z)
    (h1 : heap) (self : loc) :
  templates_intact h →
  LSST_new band psf_type coadd_years h = (h1, Return self) →
  ∃ name tl lit n l m,
    In (name, tl, lit) band_table ∧ norm_band band = name
    ∧ lit !! "num_exposures" = Some (VInt n)
    ∧ kwargs_single_band self h1 = (<[l := ODict m]> h1, Return l)
    ∧ m !! "num_exposures" = Some (VInt (n * coadd_years / 10))
    ∧ (∀ k, k ≠ "num_exposures" → is_Some (lit !! k) → m !! k = lit !! k)
    ∧ (∀ k, is_Some (camera_dict !! k) → m !! k = camera_dict !! k)
    ∧ size m = 9%nat.
Proof.
  intros Hh E.
  destruct (LSST_new_Return _ _ _ _ _ _ Hh E)
    as (name & tl & lit & n & lo & lc & Hin & Hb & Hp & Hc & Hn & Hf & ->).
  pose proof (instance_heap_state h self lo lc
                (rescaled coadd_years n lit) Hf) as Hs.
  destruct (kwargs_single_band_spec _ _ _ _ Hs)
    as (l & m & Hq & _ & _ & Hdom & Hobs & Hcam).
  exists name, tl, lit, n, l, m.
  split; [exact Hin|]. split; [exact (band_table_norm _ _ _ _ Hin Hb)|].
  split; [exact Hn|]. split; [exact Hq|].
  split; [apply Hobs, rescaled_num_exposures; assumption|].
  split; [|split].
  - intros k Hk [v Hv]. rewrite Hv. apply Hobs.
    rewrite rescaled_other by exact Hk. exact Hv.
  - intros k Hk. apply Hcam.
    assert (k ≠ "num_exposures") as Hne.
    { intros ->. rewrite (camera_keys_not_in_band _ _ _ _ Hin Hk) in Hn.
      discriminate. }
    rewrite rescaled_other by exact Hne.
    exact (camera_keys_not_in_band _ _ _ _ Hin Hk).
  - rewrite <- size_dom, Hdom, rescaled_dom by eauto.
    rewrite (merged_keys _ (band_table_keys _ _ _ Hin)).
    vm_compute. reflexivity.
Qed.

Lemma query_after_construction_witness :
  ∃ h1 self l m,
    LSST_new "I" "GAUSSIAN" 5 module_heap = (h1, Return self)
    ∧ kwargs_single_band self h1 = (<[l := ODict m]> h1, Return l)
    ∧ m !! "num_exposures" = Some (VInt 230)
    ∧ m !! "magnitude_zero_point" = Some (VFloat 27.79)
    ∧ m !! "ccd_gain" = Some (VFloat 2.3).
Proof.
  destruct (LSST_new_ok module_heap "I" "i" i_band_obs i_band_obs_dict 460 5
              templates_intact_module)
    as (self & lo & lc & Hf & E);
    [simpl; tauto | right; reflexivity | reflexivity | lia |].
  destruct (query_after_construction module_heap "I" "GAUSSIAN" 5 _ _
              templates_intact_module E)
    as (name & tl & lit & n & l & m & Hin & Hname & Hn & Hq & Hnum
        & Hband & Hcam & _).
  vm_compute in Hname. subst name.
  unfold band_table in Hin. cbn [In] in Hin.
  assert (lit = i_band_obs_dict) as -> by intuition congruence.
  assert (n = 460%Z) as -> by (vm_compute in Hn; congruence).
  eexists _, self, l, m. split; [exact E|]. split; [exact Hq|].
  split; [exact Hnum|]. split.
  - rewrite Hband; [reflexivity | discriminate | eexists; reflexivity].
  - rewrite Hcam; [reflexivity | eexists; reflexivity].
Defined.

(** X11: the query reads the instance each time it is called and its
    result is a snapshot: after [inst.obs[k] = v] a mapping returned
    earlier is unchanged, and a new query returns the earlier mapping
    with [k] bound to [v], also when [k] is a camera key.
    ([merge_dicts] as modelled above.) *)
Theorem write_then_query
    (h : heap) (band psf_type : string) (coadd_years : Z)
    (h1 : heap) (self : loc) (k : string) (v : value) :
  templates_intact h →
  LSST_new band psf_type coadd_years h = (h1, Return self) →
  ∃ l0 m0 lo h2 l m,
    kwargs_single_band self h1 = (<[l0 := ODict m0]> h1, Return l0)
    ∧ getattr self "obs" (<[l0 := ODict m0]> h1)
      = (<[l0 := ODict m0]> h1, Return lo)
    ∧ setitem lo k v (<[l0 := ODict m0]> h1) = (h2, Return tt)
    ∧ h2 !! l0 = Some (ODict m0)
    ∧ kwargs_single_band self h2 = (<[l := ODict m]> h2, Return l)
    ∧ m = <[k := v]> m0.
Proof.
  intros Hh E.
  destruct (LSST_new_Return _ _ _ _ _ _ Hh E)
    as (name & tl & lit & n & lo & lc & Hin & Hb & Hp & Hc & Hn & Hf & ->).
  set (d := rescaled coadd_years n lit).
  set (h1 := instance_heap h self lo lc d).
  pose proof (instance_heap_state h self lo lc d Hf) as Hs. fold h1 in Hs.
  destruct (kwargs_single_band_spec _ _ _ _ Hs)
    as (l0 & m0 & Hq0 & Hl0 & Hm0 & _).
  destruct (instance_heap_allocated _ _ _ _ _ _ Hf Hl0) as (Hn1 & Hn2 & Hn3).
  destruct Hf as (_ & _ & _ & Hsl & Hsc & Hlc).
  set (g := <[l0 := ODict m0]> h1).
  assert (g !! self
          = Some (OInstance (<["camera" := lc]> (<["obs" := lo]> ∅)))) as Hgs.
  { unfold g. rewrite lookup_insert_ne by congruence.
    apply instance_heap_self. }
  assert (g !! lo = Some (ODict d)) as Hglo.
  { unfold g, h1, instance_heap. rewrite !lookup_insert_ne by congruence.
    apply lookup_insert_eq. }
  assert (g !! lc = Some (ODict camera_dict)) as Hglc.
  { unfold g, h1, instance_heap. rewrite !lookup_insert_ne by congruence.
    apply lookup_insert_eq. }
  set (h2 := <[lo := ODict (<[k := v]> d)]> g).
  assert (instance_state h2 self = Some (<[k := v]> d, camera_dict)) as Hs2.
  { apply (instance_state_lookup h2 self
             (<["camera" := lc]> (<["obs" := lo]> ∅)) lo lc).
    - unfold h2. rewrite lookup_insert_ne by congruence. exact Hgs.
    - rewrite lookup_insert_ne by discriminate. apply lookup_insert_eq.
    - apply lookup_insert_eq.
    - apply lookup_insert_eq.
    - unfold h2. rewrite lookup_insert_ne by congruence. exact Hglc. }
  destruct (kwargs_single_band_spec _ _ _ _ Hs2)
    as (l & m & Hq & _ & Hm & _).
  exists l0, m0, lo, h2, l, m.
  split; [exact Hq0|]. split.
  { apply (getattr_run _ _ _ _ _ Hgs).
    rewrite lookup_insert_ne by discriminate. apply lookup_insert_eq. }
  split; [exact (setitem_run _ _ _ _ _ Hglo)|]. split.
  { unfold h2, g. rewrite lookup_insert_ne by congruence.
    apply lookup_insert_eq. }
  split; [exact Hq|].
  rewrite Hm, Hm0. symmetry. apply insert_union_l.
Qed.

Lemma write_then_query_witness :
  ∃ h1 self l0 m0 lo h2 l m,
    LSST_new "g" "GAUSSIAN" 10 module_heap = (h1, Return self)
    ∧ kwargs_single_band self h1 = (<[l0 := ODict m0]> h1, Return l0)
    ∧ setitem lo "read_noise" (VInt 5) (<[l0 := ODict m0]> h1) = (h2, Return tt)
    ∧ h2 !! l0 = Some (ODict m0)
    ∧ kwargs_single_band self h2 = (<[l := ODict m]> h2, Return l)
    ∧ m !! "read_noise" = Some (VInt 5).
Proof.
  destruct (LSST_new_ok module_heap "g" "g" g_band_obs g_band_obs_dict 200 10
              templates_intact_module)
    as (self & lo & lc & Hf & E);
    [simpl; tauto | left; reflexivity | reflexivity | lia |].
  destruct (write_then_query module_heap "g" "GAUSSIAN" 10 _ self
              "read_noise" (VInt 5) templates_intact_module E)
    as (l0 & m0 & lo' & h2 & l & m & Hq0 & _ & Hset & Hl0 & Hq & Hm).
  eexists _, self, l0, m0, lo', h2, l, m.
  split; [exact E|]. split; [exact Hq0|]. split; [exact Hset|].
  split; [exact Hl0|]. split; [exact Hq|].
  rewrite Hm. apply lookup_insert_eq.
Defined.
